(** * psiphon/utils.go: the notice console rewriter

    A shallow embedding of [NoticeConsoleRewriter] and of the library
    calls its [Write] method makes ([bytes.Index], [json.Unmarshal] into the
    local [NoticeObject] struct, [fmt.Fprintf]), followed by the properties
    of the rewriter that the specification states.

    Go's [[]byte] is [list byte]; an [int] is a [Z]; a Go [string] is the
    list of its bytes. *)

From Stdlib Require Strings.String DecimalString.
From Stdlib Require Import List ZArith NArith Bool Lia Strings.Byte.
Import ListNotations String.StringSyntax.
Delimit Scope string_scope with string.
Local Open Scope Z_scope.

(* ================================================================= *)
(** ** Bytes *)

Definition bytes := list byte.

(** Byte literals are written as strings; since a JSON text is full of
    double quotes, [lit] reads an apostrophe in its argument as a double
    quote (no text below needs a real apostrophe). *)
Definition quote_of_apostrophe (c : byte) : byte :=
  if Byte.eqb c x27 then x22 else c.

Definition lit (s : String.string) : bytes :=
  map quote_of_apostrophe (String.list_byte_of_string s).
Arguments lit s%_string.

Definition newline : byte := x0a.

(** [bytes.HasPrefix] *)
Fixpoint bytes_HasPrefix (s prefix : bytes) {struct prefix} : bool :=
  match prefix, s with
  | [], _ => true
  | _ :: _, [] => false
  | a :: prefix', b :: s' => Byte.eqb a b && bytes_HasPrefix s' prefix'
  end.

(** [bytes.Index(s, sep)]: the index of the first instance of [sep] in [s],
    or -1 when [sep] is not present. *)
Fixpoint bytes_Index (s sep : bytes) : Z :=
  if bytes_HasPrefix s sep then 0
  else match s with
       | [] => -1
       | _ :: s' =>
           let i := bytes_Index s' sep in
           if i =? -1 then -1 else i + 1
       end.

(** Slice expressions [s[:i]], [s[i:]] and [s[i:j]] for in-range indices. *)
Definition slice_to (s : bytes) (i : Z) : bytes := firstn (Z.to_nat i) s.
Definition slice_from (s : bytes) (i : Z) : bytes := skipn (Z.to_nat i) s.
Definition slice (s : bytes) (i j : nat) : bytes := firstn (j - i) (skipn i s).

Definition len (s : bytes) : Z := Z.of_nat (length s).

Fixpoint bytes_Equal (a b : bytes) : bool :=
  match a, b with
  | [], [] => true
  | x :: a', y :: b' => Byte.eqb x y && bytes_Equal a' b'
  | _, _ => false
  end.

Definition code (c : byte) : N := Byte.to_N c.

Definition in_range (lo hi : N) (c : byte) : bool :=
  ((lo <=? code c) && (code c <=? hi))%N.

(* ================================================================= *)
(** ** NoticeObject

    The struct type [Write] declares locally and unmarshals each line into.
    [NoticeType] and [Timestamp] are Go strings, [Data] is a
    [json.RawMessage] (a [[]byte]); the JSON names are those of the struct
    tags.  A variable declared with [var] starts at the zero value. *)

Record NoticeObject := {
  NoticeType : bytes;   (* `json:"noticeType"` *)
  Data : bytes;         (* `json:"data"` *)
  Timestamp : bytes     (* `json:"timestamp"` *)
}.

Definition zero_NoticeObject : NoticeObject :=
  {| NoticeType := []; Data := []; Timestamp := [] |}.

(* ================================================================= *)
(** ** encoding/json: the scanner (scanner.go)

    The package is modelled on the sources of Go's standard library
    (scanner.go, decode.go and fold.go of encoding/json, with what they use
    of unicode/utf8 and unicode/utf16).

    [json.Unmarshal] first validates its whole input with a byte-at-a-time
    state machine.  The machine is embedded as it is written: one
    constructor of [step_fn] per Go state function, [scan_step] applying
    the current one to the next byte.  The text of a syntax error and its
    offset are not kept: [Write] discards the error value. *)

Module json.

Infix "==" := Byte.eqb (at level 70, no associativity).

Inductive error :=
| SyntaxError
| UnmarshalTypeError (value : String.string).
Arguments UnmarshalTypeError value%_string.

Inductive opcode :=
| scanContinue | scanBeginLiteral | scanBeginObject | scanObjectKey
| scanObjectValue | scanEndObject | scanBeginArray | scanArrayValue
| scanEndArray | scanSkipSpace | scanEnd | scanError.

Inductive parse_state := parseObjectKey | parseObjectValue | parseArrayValue.

Inductive step_fn :=
| StateBeginValueOrEmpty | StateBeginValue | StateBeginStringOrEmpty
| StateBeginString | StateEndValue | StateEndTop
| StateInString | StateInStringEsc
| StateInStringEscU | StateInStringEscU1 | StateInStringEscU12
| StateInStringEscU123
| StateNeg | State1 | State0 | StateDot | StateDot0
| StateE | StateESign | StateE0
| StateT | StateTr | StateTru
| StateF | StateFa | StateFal | StateFals
| StateN | StateNu | StateNul
| StateError.

(** The [parseState] stack is kept with its top at the head of the list
    (Go appends at the end); its length is the nesting depth. *)
Record scanner := {
  step : step_fn;
  endTop : bool;
  parseState : list parse_state;
  err : option error
}.

Definition maxNestingDepth : N := 10000.

Definition opcode_eqb (a b : opcode) : bool :=
  match a, b with
  | scanContinue, scanContinue | scanBeginLiteral, scanBeginLiteral
  | scanBeginObject, scanBeginObject | scanObjectKey, scanObjectKey
  | scanObjectValue, scanObjectValue | scanEndObject, scanEndObject
  | scanBeginArray, scanBeginArray | scanArrayValue, scanArrayValue
  | scanEndArray, scanEndArray | scanSkipSpace, scanSkipSpace
  | scanEnd, scanEnd | scanError, scanError => true
  | _, _ => false
  end.

Definition reset : scanner :=
  {| step := StateBeginValue; endTop := false; parseState := []; err := None |}.

Definition with_step (s : scanner) (f : step_fn) : scanner :=
  {| step := f; endTop := endTop s; parseState := parseState s; err := err s |}.

Definition with_parseState (s : scanner) (ps : list parse_state) : scanner :=
  {| step := step s; endTop := endTop s; parseState := ps; err := err s |}.

(** [s.error(c, context)] *)
Definition scan_error (s : scanner) : scanner * opcode :=
  ({| step := StateError; endTop := endTop s; parseState := parseState s;
      err := Some SyntaxError |}, scanError).

Definition pushParseState (s : scanner) (newParseState : parse_state)
    (successState : opcode) : scanner * opcode :=
  let s := with_parseState s (newParseState :: parseState s) in
  if (N.of_nat (length (parseState s)) <=? maxNestingDepth)%N
  then (s, successState)
  else scan_error s.

Definition popParseState (s : scanner) : scanner :=
  let ps := tl (parseState s) in
  match ps with
  | [] => {| step := StateEndTop; endTop := true; parseState := ps; err := err s |}
  | _ :: _ => {| step := StateEndValue; endTop := endTop s; parseState := ps; err := err s |}
  end.

Definition isSpace (c : byte) : bool :=
  (c == " ") || (c == x09) || (c == x0d) || (c == x0a).

Definition isDigit (c : byte) : bool := in_range 48 57 c.
Definition isDigit19 (c : byte) : bool := in_range 49 57 c.
Definition isHex (c : byte) : bool :=
  in_range 48 57 c || in_range 97 102 c || in_range 65 70 c.

Definition stateEndTop (s : scanner) (c : byte) : scanner * opcode :=
  if negb (isSpace c) then (fst (scan_error s), scanEnd) else (s, scanEnd).

Definition stateEndValue (s : scanner) (c : byte) : scanner * opcode :=
  match parseState s with
  | [] =>
      stateEndTop {| step := StateEndTop; endTop := true;
                     parseState := []; err := err s |} c
  | ps :: rest =>
      if isSpace c then (with_step s StateEndValue, scanSkipSpace)
      else match ps with
           | parseObjectKey =>
               if c == ":" then
                 (with_step (with_parseState s (parseObjectValue :: rest))
                    StateBeginValue, scanObjectKey)
               else scan_error s
           | parseObjectValue =>
               if c == "," then
                 (with_step (with_parseState s (parseObjectKey :: rest))
                    StateBeginString, scanObjectValue)
               else if c == "}" then (popParseState s, scanEndObject)
               else scan_error s
           | parseArrayValue =>
               if c == "," then (with_step s StateBeginValue, scanArrayValue)
               else if c == "]" then (popParseState s, scanEndArray)
               else scan_error s
           end
  end.

Definition stateBeginValue (s : scanner) (c : byte) : scanner * opcode :=
  if isSpace c then (s, scanSkipSpace)
  else if c == "{" then
    pushParseState (with_step s StateBeginStringOrEmpty) parseObjectKey scanBeginObject
  else if c == "[" then
    pushParseState (with_step s StateBeginValueOrEmpty) parseArrayValue scanBeginArray
  else if c == x22 then (with_step s StateInString, scanBeginLiteral)
  else if c == "-" then (with_step s StateNeg, scanBeginLiteral)
  else if c == "0" then (with_step s State0, scanBeginLiteral)
  else if c == "t" then (with_step s StateT, scanBeginLiteral)
  else if c == "f" then (with_step s StateF, scanBeginLiteral)
  else if c == "n" then (with_step s StateN, scanBeginLiteral)
  else if isDigit19 c then (with_step s State1, scanBeginLiteral)
  else scan_error s.

Definition stateBeginValueOrEmpty (s : scanner) (c : byte) : scanner * opcode :=
  if isSpace c then (s, scanSkipSpace)
  else if c == "]" then stateEndValue s c
  else stateBeginValue s c.

Definition stateBeginString (s : scanner) (c : byte) : scanner * opcode :=
  if isSpace c then (s, scanSkipSpace)
  else if c == x22 then (with_step s StateInString, scanBeginLiteral)
  else scan_error s.

Definition stateBeginStringOrEmpty (s : scanner) (c : byte) : scanner * opcode :=
  if isSpace c then (s, scanSkipSpace)
  else if c == "}" then
    stateEndValue (with_parseState s (parseObjectValue :: tl (parseState s))) c
  else stateBeginString s c.

Definition stateInString (s : scanner) (c : byte) : scanner * opcode :=
  if c == x22 then (with_step s StateEndValue, scanContinue)
  else if c == x5c then (with_step s StateInStringEsc, scanContinue)
  else if (code c <? 32)%N then scan_error s
  else (s, scanContinue).

Definition stateInStringEsc (s : scanner) (c : byte) : scanner * opcode :=
  if (c == "b") || (c == "f") || (c == "n") || (c == "r") || (c == "t")
     || (c == x5c) || (c == "/") || (c == x22)
  then (with_step s StateInString, scanContinue)
  else if c == "u" then (with_step s StateInStringEscU, scanContinue)
  else scan_error s.

(** [stateInStringEscU], [...U1], [...U12], [...U123]: one hex digit each. *)
Definition stateHex (next : step_fn) (s : scanner) (c : byte) : scanner * opcode :=
  if isHex c then (with_step s next, scanContinue) else scan_error s.

(** [stateT], [stateTr], ...: one fixed letter each. *)
Definition stateLetter (expect : byte) (next : step_fn) (s : scanner) (c : byte)
    : scanner * opcode :=
  if c == expect then (with_step s next, scanContinue) else scan_error s.

Definition stateNeg (s : scanner) (c : byte) : scanner * opcode :=
  if c == "0" then (with_step s State0, scanContinue)
  else if isDigit19 c then (with_step s State1, scanContinue)
  else scan_error s.

Definition stateE0 (s : scanner) (c : byte) : scanner * opcode :=
  if isDigit c then (s, scanContinue) else stateEndValue s c.

Definition stateESign (s : scanner) (c : byte) : scanner * opcode :=
  if isDigit c then (with_step s StateE0, scanContinue) else scan_error s.

Definition stateE (s : scanner) (c : byte) : scanner * opcode :=
  if (c == "+") || (c == "-") then (with_step s StateESign, scanContinue)
  else stateESign s c.

Definition stateDot0 (s : scanner) (c : byte) : scanner * opcode :=
  if isDigit c then (s, scanContinue)
  else if (c == "e") || (c == "E") then (with_step s StateE, scanContinue)
  else stateEndValue s c.

Definition stateDot (s : scanner) (c : byte) : scanner * opcode :=
  if isDigit c then (with_step s StateDot0, scanContinue) else scan_error s.

Definition state0 (s : scanner) (c : byte) : scanner * opcode :=
  if c == "." then (with_step s StateDot, scanContinue)
  else if (c == "e") || (c == "E") then (with_step s StateE, scanContinue)
  else stateEndValue s c.

Definition state1 (s : scanner) (c : byte) : scanner * opcode :=
  if isDigit c then (with_step s State1, scanContinue) else state0 s c.

(** [s.step(s, c)] *)
Definition scan_step (s : scanner) (c : byte) : scanner * opcode :=
  match step s with
  | StateBeginValueOrEmpty => stateBeginValueOrEmpty s c
  | StateBeginValue => stateBeginValue s c
  | StateBeginStringOrEmpty => stateBeginStringOrEmpty s c
  | StateBeginString => stateBeginString s c
  | StateEndValue => stateEndValue s c
  | StateEndTop => stateEndTop s c
  | StateInString => stateInString s c
  | StateInStringEsc => stateInStringEsc s c
  | StateInStringEscU => stateHex StateInStringEscU1 s c
  | StateInStringEscU1 => stateHex StateInStringEscU12 s c
  | StateInStringEscU12 => stateHex StateInStringEscU123 s c
  | StateInStringEscU123 => stateHex StateInString s c
  | StateNeg => stateNeg s c
  | State1 => state1 s c
  | State0 => state0 s c
  | StateDot => stateDot s c
  | StateDot0 => stateDot0 s c
  | StateE => stateE s c
  | StateESign => stateESign s c
  | StateE0 => stateE0 s c
  | StateT => stateLetter "r" StateTr s c
  | StateTr => stateLetter "u" StateTru s c
  | StateTru => stateLetter "e" StateEndValue s c
  | StateF => stateLetter "a" StateFa s c
  | StateFa => stateLetter "l" StateFal s c
  | StateFal => stateLetter "s" StateFals s c
  | StateFals => stateLetter "e" StateEndValue s c
  | StateN => stateLetter "u" StateNu s c
  | StateNu => stateLetter "l" StateNul s c
  | StateNul => stateLetter "l" StateEndValue s c
  | StateError => (s, scanError)
  end.

(** [s.eof()] *)
Definition eof (s : scanner) : scanner * opcode :=
  match err s with
  | Some _ => (s, scanError)
  | None =>
      if endTop s then (s, scanEnd)
      else
        let s := fst (scan_step s " ") in
        if endTop s then (s, scanEnd)
        else match err s with
             | Some _ => (s, scanError)
             | None => (fst (scan_error s), scanError)
             end
  end.

(** [checkValid(data, scan)]: [None] is Go's nil error. *)
Fixpoint checkValid_from (scan : scanner) (data : bytes) : option error :=
  match data with
  | [] => let (scan, op) := eof scan in
          if opcode_eqb op scanError then err scan else None
  | c :: data' =>
      let (scan, op) := scan_step scan c in
      if opcode_eqb op scanError then err scan else checkValid_from scan data'
  end.

Definition checkValid (data : bytes) : option error := checkValid_from reset data.

(* ----------------------------------------------------------------- *)
(** *** unicode/utf8, unicode/utf16 and string unquoting (decode.go) *)

Definition byte_of (n : N) : byte :=
  match Byte.of_N n with Some b => b | None => x00 end.

Definition RuneError : N := 65533.     (* U+FFFD *)
Definition MaxRune : N := 1114111.     (* U+10FFFF *)

(** [utf16.IsSurrogate] and [utf16.DecodeRune] *)
Definition IsSurrogate (r : N) : bool := ((55296 <=? r) && (r <? 57344))%N.

Definition utf16_DecodeRune (r1 : N) (r2 : option N) : N :=
  match r2 with
  | Some r2 =>
      if ((55296 <=? r1) && (r1 <? 56320) && (56320 <=? r2) && (r2 <? 57344))%N
      then (N.lor (N.shiftl (r1 - 55296) 10) (r2 - 56320) + 65536)%N
      else RuneError
  | None => RuneError
  end.

(** [utf8.EncodeRune] *)
Definition utf8_EncodeRune (r : N) : bytes :=
  if (r <=? 127)%N then [byte_of r]
  else if (r <=? 2047)%N then
    [byte_of (N.lor 192 (N.shiftr r 6)); byte_of (N.lor 128 (N.land r 63))]
  else if (MaxRune <? r)%N || IsSurrogate r then [xef; xbf; xbd]
  else if (r <=? 65535)%N then
    [byte_of (N.lor 224 (N.shiftr r 12));
     byte_of (N.lor 128 (N.land (N.shiftr r 6) 63));
     byte_of (N.lor 128 (N.land r 63))]
  else
    [byte_of (N.lor 240 (N.shiftr r 18));
     byte_of (N.lor 128 (N.land (N.shiftr r 12) 63));
     byte_of (N.lor 128 (N.land (N.shiftr r 6) 63));
     byte_of (N.lor 128 (N.land r 63))].

(** The length of the well-formed UTF-8 sequence a non-ASCII lead byte [c0]
    starts when followed by [c1]: the accept ranges of [utf8.DecodeRune];
    0 when the pair cannot start one. *)
Definition utf8_lead (c0 c1 : byte) : nat :=
  if in_range 194 223 c0 then (if in_range 128 191 c1 then 2 else 0)
  else if in_range 224 224 c0 then (if in_range 160 191 c1 then 3 else 0)
  else if in_range 225 236 c0 then (if in_range 128 191 c1 then 3 else 0)
  else if in_range 237 237 c0 then (if in_range 128 159 c1 then 3 else 0)
  else if in_range 238 239 c0 then (if in_range 128 191 c1 then 3 else 0)
  else if in_range 240 240 c0 then (if in_range 144 191 c1 then 4 else 0)
  else if in_range 241 243 c0 then (if in_range 128 191 c1 then 4 else 0)
  else if in_range 244 244 c0 then (if in_range 128 143 c1 then 4 else 0)
  else 0%nat.

Definition isCont (c : byte) : bool := in_range 128 191 c.

Definition hexval (c : byte) : option N :=
  if in_range 48 57 c then Some (code c - 48)%N
  else if in_range 97 102 c then Some (code c - 87)%N
  else if in_range 65 70 c then Some (code c - 55)%N
  else None.

(** [getu4] on the four digits that follow a backslash and a [u]. *)
Definition getu4 (h1 h2 h3 h4 : byte) : option N :=
  match hexval h1, hexval h2, hexval h3, hexval h4 with
  | Some a, Some b, Some c, Some d => Some (((a * 16 + b) * 16 + c) * 16 + d)%N
  | _, _, _, _ => None
  end.

Definition prepend (p : bytes) (r : option bytes) : option bytes :=
  option_map (app p) r.

(** The loop of [unquoteBytes] over the text between the quotes; [None] is
    Go's [ok == false].  A well-formed UTF-8 sequence is decoded and encoded
    again, which leaves its bytes as they are; any other non-ASCII byte
    becomes U+FFFD. *)
Fixpoint unquote_loop (s : bytes) : option bytes :=
  match s with
  | [] => Some []
  | c :: s1 =>
      if c == x5c then
        match s1 with
        | [] => None
        | e :: s2 =>
            if (e == x22) || (e == x5c) || (e == "/") || (e == x27)
            then prepend [e] (unquote_loop s2)
            else if e == "b" then prepend [x08] (unquote_loop s2)
            else if e == "f" then prepend [x0c] (unquote_loop s2)
            else if e == "n" then prepend [x0a] (unquote_loop s2)
            else if e == "r" then prepend [x0d] (unquote_loop s2)
            else if e == "t" then prepend [x09] (unquote_loop s2)
            else if e == "u" then
              match s2 with
              | h1 :: h2 :: h3 :: h4 :: s6 =>
                  match getu4 h1 h2 h3 h4 with
                  | None => None
                  | Some rr =>
                      if IsSurrogate rr then
                        match s6 with
                        | b :: u :: k1 :: k2 :: k3 :: k4 :: s12 =>
                            let rr1 := if (b == x5c) && (u == "u")
                                       then getu4 k1 k2 k3 k4 else None in
                            let dec := utf16_DecodeRune rr rr1 in
                            if (dec =? RuneError)%N
                            then prepend (utf8_EncodeRune RuneError) (unquote_loop s6)
                            else prepend (utf8_EncodeRune dec) (unquote_loop s12)
                        | _ => prepend (utf8_EncodeRune RuneError) (unquote_loop s6)
                        end
                      else prepend (utf8_EncodeRune rr) (unquote_loop s6)
                  end
              | _ => None
              end
            else None
        end
      else if (c == x22) || (code c <? 32)%N then None
      else if (code c <? 128)%N then prepend [c] (unquote_loop s1)
      else
        match s1 with
        | c1 :: s2 =>
            match utf8_lead c c1 with
            | 2%nat => prepend [c; c1] (unquote_loop s2)
            | 3%nat =>
                match s2 with
                | c2 :: s3 =>
                    if isCont c2 then prepend [c; c1; c2] (unquote_loop s3)
                    else prepend (utf8_EncodeRune RuneError) (unquote_loop s1)
                | [] => prepend (utf8_EncodeRune RuneError) (unquote_loop s1)
                end
            | 4%nat =>
                match s2 with
                | c2 :: c3 :: s4 =>
                    if isCont c2 && isCont c3
                    then prepend [c; c1; c2; c3] (unquote_loop s4)
                    else prepend (utf8_EncodeRune RuneError) (unquote_loop s1)
                | _ => prepend (utf8_EncodeRune RuneError) (unquote_loop s1)
                end
            | _ => prepend (utf8_EncodeRune RuneError) (unquote_loop s1)
            end
        | [] => Some (utf8_EncodeRune RuneError)
        end
  end.

(** [unquoteBytes(s)]: [s] is a quoted JSON string literal. *)
Definition unquoteBytes (s : bytes) : option bytes :=
  match s with
  | q :: s1 =>
      match rev s1 with
      | q' :: inner =>
          if (q == x22) && (q' == x22) then unquote_loop (rev inner) else None
      | [] => None
      end
  | [] => None
  end.

(* ----------------------------------------------------------------- *)
(** *** Decoding into a NoticeObject (decode.go)

    [Unmarshal] is generic over its target through reflection; here it is
    specialised to a pointer to a [NoticeObject]. *)

Inductive field := FNoticeType | FData | FTimestamp.

Definition field_name (f : field) : bytes :=
  match f with
  | FNoticeType => lit "noticeType"
  | FData => lit "data"
  | FTimestamp => lit "timestamp"
  end.

Definition fields : list field := [FNoticeType; FData; FTimestamp].

(** [foldName]: ASCII letters are upper-cased and every other rune is
    replaced by the smallest rune of its simple case-folding orbit.  Only
    two orbits reach ASCII, those of U+017F (long s) and U+212A (Kelvin
    sign); a rune of any other orbit stays outside ASCII and is left as it is
    here, which gives the same answer when the result is compared with the
    folded name of a field, all of whose letters are ASCII. *)
Fixpoint foldName (s : bytes) : bytes :=
  match s with
  | [] => []
  | c :: s1 =>
      if in_range 97 122 c then byte_of (code c - 32) :: foldName s1
      else
        match s1 with
        | c1 :: s2 =>
            if (c == xc5) && (c1 == xbf) then "S"%byte :: foldName s2
            else
              match s2 with
              | c2 :: s3 =>
                  if (c == xe2) && (c1 == x84) && (c2 == xaa)
                  then "K"%byte :: foldName s3
                  else c :: foldName s1
              | [] => c :: foldName s1
              end
        | [] => [c]
        end
  end.

(** The field of the struct a key selects: [fields.byExactName], then
    [fields.byFoldedName]. *)
Definition find_field (key : bytes) : option field :=
  match find (fun f => bytes_Equal (field_name f) key) fields with
  | Some f => Some f
  | None =>
      find (fun f => bytes_Equal (foldName (field_name f)) (foldName key)) fields
  end.

(** [d.saveError]: the first error is the one reported. *)
Definition saveError (saved : option error) (e : error) : option error :=
  match saved with Some _ => saved | None => Some e end.

(** What [d.value] does with a value whose text is [item] when the target is
    a field of kind string ([d.object] and [d.array] report a type error and
    skip the value; [d.literalStore] handles the literals).  Go panics where
    [unquoteBytes] fails; a literal that passed [checkValid] unquotes, and the
    model leaves the field as it is there. *)
Definition store_string (item : bytes) (old : bytes) (saved : option error)
    : bytes * option error :=
  match item with
  | [] => (old, saved)
  | c :: _ =>
      if c == "{" then (old, saveError saved (UnmarshalTypeError "object"))
      else if c == "[" then (old, saveError saved (UnmarshalTypeError "array"))
      else if c == "n" then (old, saved)
      else if (c == "t") || (c == "f")
      then (old, saveError saved (UnmarshalTypeError "bool"))
      else if c == x22 then
        match unquoteBytes item with
        | Some s => (s, saved)
        | None => (old, saved)
        end
      else (old, saveError saved (UnmarshalTypeError "number"))
  end.

(** One key and value of the object: [key] is the text of the key literal,
    [item] the text of the value.  The [Data] field is a [RawMessage], whose
    [UnmarshalJSON] copies the value's text; a key that names no field has
    its value skipped. *)
Definition store_member (key item : bytes) (st : NoticeObject * option error)
    : NoticeObject * option error :=
  let (v, saved) := st in
  match unquoteBytes key with
  | None => st
  | Some k =>
      match find_field k with
      | None => st
      | Some FNoticeType =>
          let (s, saved) := store_string item (NoticeType v) saved in
          ({| NoticeType := s; Data := Data v; Timestamp := Timestamp v |}, saved)
      | Some FTimestamp =>
          let (s, saved) := store_string item (Timestamp v) saved in
          ({| NoticeType := NoticeType v; Data := Data v; Timestamp := s |}, saved)
      | Some FData =>
          ({| NoticeType := NoticeType v; Data := item; Timestamp := Timestamp v |},
           saved)
      end
  end.

(** Where the decoder stands in the top-level object.  [d.object] reads the
    validated input again with the same scanner and cuts each key and each
    value out of [d.data] by offsets ([d.data[start:d.readIndex()]]); the
    loop below is that second reading, one byte at a time, with the offsets
    it has collected so far. *)
Inductive phase :=
| AtTop                                   (* before the top-level value *)
| AtKey                                   (* before a key or the closing brace *)
| InKey (start stop : nat)                (* in or after a key, before the colon *)
| AtValue (key : nat * nat)               (* after the colon *)
| InValue (key : nat * nat) (start stop : nat)
| Done.

Definition member : Type := (nat * nat) * (nat * nat).

(** The phase after a byte on which the scanner answered [op], [depth] and
    [depth'] being the nesting depth before and after the byte, and the
    member completed by the byte, if any.  A value ends at the comma or the
    closing brace of the top-level object; its text runs up to the last byte
    before that which is not white space between tokens. *)
Definition next_phase (ph : phase) (i depth depth' : nat) (op : opcode)
    : list member * phase :=
  match ph with
  | AtTop =>
      match op with
      | scanSkipSpace => ([], AtTop)
      | scanBeginObject => ([], AtKey)
      | _ => ([], Done)
      end
  | AtKey =>
      match op with
      | scanSkipSpace => ([], AtKey)
      | scanBeginLiteral => ([], InKey i (S i))
      | _ => ([], Done)
      end
  | InKey start stop =>
      match op with
      | scanContinue => ([], InKey start (S i))
      | scanObjectKey => ([], AtValue (start, stop))
      | _ => ([], InKey start stop)
      end
  | AtValue key =>
      match op with
      | scanSkipSpace => ([], AtValue key)
      | _ => ([], InValue key i (S i))
      end
  | InValue key start stop =>
      if (depth =? 1)%nat && opcode_eqb op scanObjectValue
      then ([(key, (start, stop))], AtKey)
      else if (depth' =? 0)%nat then ([(key, (start, stop))], Done)
      else if opcode_eqb op scanSkipSpace then ([], InValue key start stop)
      else ([], InValue key start (S i))
  | Done => ([], Done)
  end.

Fixpoint members_from (s : scanner) (ph : phase) (i : nat) (rest : bytes)
    : list member :=
  match rest with
  | [] => []
  | c :: rest' =>
      let (s', op) := scan_step s c in
      let (ms, ph') :=
        next_phase ph i (length (parseState s)) (length (parseState s')) op in
      ms ++ members_from s' ph' (S i) rest'
  end.

Definition members (data : bytes) : list member := members_from reset AtTop 0 data.

(** [d.object(v)] for the struct. *)
Definition object (data : bytes) (v : NoticeObject) : NoticeObject * option error :=
  fold_left
    (fun st (m : member) =>
       let '((ks, ke), (vs, ve)) := m in
       store_member (slice data ks ke) (slice data vs ve) st)
    (members data) (v, None).

Fixpoint skipSpace (data : bytes) : bytes :=
  match data with
  | c :: data' => if isSpace c then skipSpace data' else data
  | [] => []
  end.

(** [d.unmarshal(v)]: [d.scanWhile(scanSkipSpace)], then [d.value(v)] with
    [v] the struct. *)
Definition unmarshal (data : bytes) (v : NoticeObject) : NoticeObject * option error :=
  match skipSpace data with
  | [] => (v, None)
  | c :: _ =>
      if c == "{" then object data v
      else if c == "[" then (v, Some (UnmarshalTypeError "array"))
      else if c == x22 then (v, Some (UnmarshalTypeError "string"))
      else if c == "n" then (v, None)
      else if (c == "t") || (c == "f") then (v, Some (UnmarshalTypeError "bool"))
      else (v, Some (UnmarshalTypeError "number"))
  end.

(** [json.Unmarshal(data, &v)]: the new value of [v] and the error. *)
Definition Unmarshal (data : bytes) (v : NoticeObject) : NoticeObject * option error :=
  match checkValid data with
  | Some e => (v, Some e)
  | None => unmarshal data v
  end.

End json.

(* ================================================================= *)
(** ** io.Writer values and what the process writes

    An [io.Writer] held by the program (a file, a buffer, a pipe) is named
    by a handle.  The world records, in order, every [Write] call made on
    such a value: its target, the bytes handed over and the error the
    target answered.  A target that has been closed answers every write
    with an error and takes no byte. *)

Definition Writer := nat.

(** [os.Stderr], the file of descriptor 2. *)
Definition os_Stderr : Writer := 2%nat.

Inductive error :=
| os_ErrClosed
| json_error (e : json.error).

Record WriteCall := {
  target : Writer;
  payload : bytes;
  result : option error
}.

Record World := {
  closed : Writer -> bool;
  calls : list WriteCall
}.

(** The texts handed to writers so far, oldest first. *)
Definition written (world : World) : list bytes := map payload (calls world).

(** The [io.Writer] interface: a [Write] method taking a chunk and
    answering the number of bytes accepted and an error. *)
Class io_Writer (T : Type) := io_Write : T -> bytes -> World -> (T * World) * (Z * option error).

#[export] Instance Writer_io_Writer : io_Writer Writer :=
  fun w p world =>
    let res := if closed world w then Some os_ErrClosed else None in
    let world' :=
      {| closed := closed world;
         calls := calls world ++ [{| target := w; payload := p; result := res |}] |} in
    ((w, world'), (if closed world w then 0 else len p, res)).

(** [fmt.Sprintf("%s %s %s\n", a, b, c)] *)
Definition fmt_Sprintf (a b c : bytes) : bytes :=
  a ++ lit " " ++ b ++ lit " " ++ c ++ [newline].

(** [fmt.Fprintf(w, "%s %s %s\n", a, b, c)]: the text is formatted and handed
    to [w] in one [Write]. *)
Definition fmt_Fprintf (w : Writer) (a b c : bytes) (world : World)
    : World * (Z * option error) :=
  let '((_, world), res) := io_Write w (fmt_Sprintf a b c) world in (world, res).

(* ================================================================= *)
(** ** NoticeConsoleRewriter

    The [mutex] field is not part of the state: [Write] locks it on entry and
    unlocks it, deferred, on return, so that between two calls of a
    sequential run it is always free. *)

Record NoticeConsoleRewriter := {
  writer : Writer;
  buffer : bytes
}.

Definition NewNoticeConsoleRewriter (writer : Writer) : NoticeConsoleRewriter :=
  {| writer := writer; buffer := [] |}.

(** [rewriter.Write(p)], as state passing over the rewriter and the world;
    the result pairs the new state with [(n, err)]. *)
Definition Write (rewriter : NoticeConsoleRewriter) (p : bytes) (world : World)
    : (NoticeConsoleRewriter * World) * (Z * option error) :=
  let rewriter := {| writer := writer rewriter; buffer := buffer rewriter ++ p |} in
  let index := bytes_Index (buffer rewriter) [newline] in
  if index =? -1 then ((rewriter, world), (len p, None))
  else
    let line := slice_to (buffer rewriter) index in
    let rewriter :=
      {| writer := writer rewriter;
         buffer := slice_from (buffer rewriter) (index + 1) |} in
    let (noticeObject, _) := json.Unmarshal line zero_NoticeObject in
    let (world, _) :=
      fmt_Fprintf os_Stderr
        (Timestamp noticeObject) (NoticeType noticeObject) (Data noticeObject)
        world in
    ((rewriter, world), (len p, None)).

#[export] Instance NoticeConsoleRewriter_io_Writer : io_Writer NoticeConsoleRewriter :=
  Write.

(** Successive calls, one per chunk. *)
Fixpoint Writes (rewriter : NoticeConsoleRewriter) (chunks : list bytes) (world : World)
    : NoticeConsoleRewriter * World :=
  match chunks with
  | [] => (rewriter, world)
  | p :: chunks' =>
      let '((rewriter, world), _) := Write rewriter p world in
      Writes rewriter chunks' world
  end.

(** The states a rewriter can be in: as constructed, or after a call. *)
Inductive reachable : NoticeConsoleRewriter -> Prop :=
| reachable_new (w : Writer) : reachable (NewNoticeConsoleRewriter w)
| reachable_Write (r : NoticeConsoleRewriter) (p : bytes) (world : World) :
    reachable r -> reachable (fst (fst (Write r p world))).

(** The line the rewriter prints for the text [line] of one record. *)
Definition formatted (obj : NoticeObject) : bytes :=
  fmt_Sprintf (Timestamp obj) (NoticeType obj) (Data obj).

Definition rewrite_line (line : bytes) : bytes :=
  formatted (fst (json.Unmarshal line zero_NoticeObject)).

(** The calls made on writers between two worlds, and whether one failed. *)
Definition calls_since (before after : World) : list WriteCall :=
  skipn (length (calls before)) (calls after).

Definition write_failed (before after : World) : bool :=
  existsb (fun c => match result c with Some _ => true | None => false end)
    (calls_since before after).

(** A world in which nothing has been written and every writer is open, and
    one in which the standard error stream has been closed. *)
Definition fresh_world : World := {| closed := fun _ => false; calls := [] |}.
Definition stderr_closed_world : World :=
  {| closed := fun w => Nat.eqb w os_Stderr; calls := [] |}.

(* ================================================================= *)
(** ** Notions used in the statements *)

(** The world after [text] has been handed to the standard error stream. *)
Definition stderr_write (world : World) (text : bytes) : World :=
  {| closed := closed world;
     calls := calls world ++
       [{| target := os_Stderr; payload := text;
           result := if closed world os_Stderr then Some os_ErrClosed else None |}] |}.

Definition with_buffer (r : NoticeConsoleRewriter) (b : bytes) : NoticeConsoleRewriter :=
  {| writer := writer r; buffer := b |}.

(** Each field of [obj] is the one [v] had, or was read from [data]: the
    payload as a run of its bytes, a string as the unquoted text of one. *)
Definition stored_from (data : bytes) (v obj : NoticeObject) : Prop :=
  (Data obj = Data v \/ exists i j, Data obj = slice data i j)
  /\ (NoticeType obj = NoticeType v
      \/ exists i j, json.unquoteBytes (slice data i j) = Some (NoticeType obj))
  /\ (Timestamp obj = Timestamp v
      \/ exists i j, json.unquoteBytes (slice data i j) = Some (Timestamp obj)).

(* ----------------------------------------------------------------- *)
(** *** Two sample notices *)

Definition notice_hi : bytes :=
  lit "{'noticeType':'Info','data':{'msg':'hi'},'timestamp':'2024-01-01T00:00:00Z'}".

Definition notice_bye : bytes :=
  lit "{'noticeType':'Info','data':{'msg':'bye'},'timestamp':'2024-01-01T00:00:01Z'}".

Definition line_hi : bytes := lit "2024-01-01T00:00:00Z Info {'msg':'hi'}" ++ [newline].
Definition line_bye : bytes := lit "2024-01-01T00:00:01Z Info {'msg':'bye'}" ++ [newline].

Definition two_notices : bytes := notice_hi ++ [newline] ++ notice_bye ++ [newline].

(* ----------------------------------------------------------------- *)
(** *** Notices in the usual layout and the scanner's runs over them *)

Section Layout.

Import json.

(** Printable ASCII other than the double quote and the backslash: the
    bytes a JSON string literal holds as they are. *)
Definition plain_byte (c : byte) : bool :=
  in_range 32 126 c && negb (c == x22) && negb (c == x5c).

Definition plain (s : bytes) : bool := forallb plain_byte s.

Definition quoted (s : bytes) : bytes := x22 :: s ++ [x22].

Definition trimmed (d : bytes) : bool :=
  match d, rev d with
  | c :: _, c' :: _ => negb (isSpace c) && negb (isSpace c')
  | _, _ => false
  end.

(** The greatest nesting depth met while scanning [d]. *)
Fixpoint max_depth (s : scanner) (d : bytes) : nat :=
  match d with
  | [] => 0%nat
  | c :: d' =>
      let s1 := fst (scan_step s c) in
      Nat.max (length (parseState s1)) (max_depth s1 d')
  end.

(** The text of one JSON value, without white space around it and nested
    less deep than the scanner allows. *)
Definition value_text (d : bytes) : Prop :=
  checkValid d = None
  /\ trimmed d = true
  /\ (N.of_nat (max_depth reset d) < maxNestingDepth)%N.

(** A notice laid out as in the scenarios of the specification: the type,
    the payload and the timestamp, in this order and without white space. *)
Definition notice_text (noticeType data timestamp : bytes) : bytes :=
  lit "{'noticeType':" ++ quoted noticeType ++ lit ",'data':" ++ data
    ++ lit ",'timestamp':" ++ quoted timestamp ++ lit "}".

Definition notice_members (n m t : nat) : list member :=
  [ ((1, 13), (14, 16 + n));
    ((17 + n, 23 + n), (24 + n, 24 + n + m));
    ((25 + n + m, 36 + n + m), (37 + n + m, 39 + n + m + t)) ]%nat.

(** The scanner and the phase after the bytes of [seg], with the members
    completed on the way; [None] when the scanner reports an error. *)
Fixpoint run (s : scanner) (ph : phase) (i : nat) (seg : bytes)
    : option (list member * scanner * phase) :=
  match seg with
  | [] => Some ([], s, ph)
  | c :: seg' =>
      let (s', op) := scan_step s c in
      if opcode_eqb op scanError then None
      else
        let (ms, ph') :=
          next_phase ph i (length (parseState s)) (length (parseState s')) op in
        match run s' ph' (S i) seg' with
        | Some (ms', sf, phf) => Some (ms ++ ms', sf, phf)
        | None => None
        end
  end.

(** A scanner is clean when it has met no error. *)
Definition clean (s : scanner) : Prop := err s = None /\ step s <> StateError.

(** [steps s d sf]: the scanner goes from [s] to [sf] over the bytes of [d]
    and stays clean. *)
Fixpoint steps (s : scanner) (d : bytes) (sf : scanner) : Prop :=
  match d with
  | [] => sf = s
  | c :: d' =>
      exists s1 op,
        scan_step s c = (s1, op) /\ op <> scanError /\ clean s1 /\ steps s1 d' sf
  end.

Definition base : list parse_state := [parseObjectValue].

Definition embeds (T E : scanner) : Prop :=
  err E = None /\ endTop E = false /\ parseState E = parseState T ++ base
  /\ (step T = StateBeginStringOrEmpty -> parseState T <> [])
  /\ ((endTop T = false /\ step E = step T /\ step T <> StateEndTop)
      \/ (endTop T = true /\ step T = StateEndTop /\ parseState T = []
          /\ step E = StateEndValue)).

(** The scanner at the start of a member's value. *)
Definition at_value : scanner :=
  {| step := StateBeginValue; endTop := false; parseState := base; err := None |}.

(** The scanner in a string whose closing quote ends a key or a value. *)
Definition in_string (ps : list parse_state) : scanner :=
  {| step := StateInString; endTop := false; parseState := ps; err := None |}.

(** The scanner after the comma that follows a member. *)
Definition at_next_key : scanner :=
  {| step := StateBeginString; endTop := false; parseState := [parseObjectKey];
     err := None |}.

Definition at_end : scanner :=
  {| step := StateEndTop; endTop := true; parseState := []; err := None |}.

End Layout.

(* ================================================================= *)
(** ** The other helpers of utils.go

    A call gives the values it returns or ends in a run-time panic.  An
    [error] is nil ([None]) or a value taken by what its [Error] method
    answers; [errors.New] and [fmt.Errorf] make such values. *)

Inductive outcome (A : Type) : Type :=
| Returns (a : A)
| Panics.
Arguments Returns {A} a.
Arguments Panics {A}.

Module errors.

Record errorString := New { Error : bytes }.

End errors.

Definition error_value : Type := option errors.errorString.

(** [Contains]: strings are compared with [==], byte by byte. *)
Fixpoint Contains (list : list bytes) (target : bytes) : bool :=
  match list with
  | [] => false
  | listItem :: list' =>
      if bytes_Equal listItem target then true else Contains list' target
  end.

(** [fmt.Sprintf("%s", err)]: the message of the error, and the mark of a
    bad operand for the nil interface. *)
Definition fmt_Sprintf_s (err : error_value) : bytes :=
  match err with
  | Some e => errors.Error e
  | None => lit "%!s(<nil>)"
  end.

(** The verb [%d] on an [int]. *)
Definition fmt_d (z : Z) : bytes :=
  String.list_byte_of_string (DecimalString.NilZero.string_of_int (Z.to_int z)).

(** [fmt.Errorf("%s#%d: %s", funcName, line, err)] *)
Definition fmt_Errorf (funcName : bytes) (line : Z) (err : error_value)
    : errors.errorString :=
  errors.New (funcName ++ lit "#" ++ fmt_d line ++ lit ": " ++ fmt_Sprintf_s err).

Definition MAX_LEN : Z := 100.

(** [TrimError] *)
Definition TrimError (err : error_value) : error_value :=
  let message := fmt_Sprintf_s err in
  if len message >? MAX_LEN then
    Some (errors.New (slice_to message (MAX_LEN / 2) ++ lit "..."
                        ++ slice_from message (len message - MAX_LEN / 2)))
  else err.

(** The two ends [TrimError] keeps of a long message. *)
Definition trim_head (message : bytes) : bytes := slice_to message (MAX_LEN / 2).
Definition trim_tail (message : bytes) : bytes :=
  slice_from message (len message - MAX_LEN / 2).

(** [strings.LastIndex(s, sep)]: the index of the last instance of [sep] in
    [s], or -1. *)
Fixpoint strings_LastIndex (s sep : bytes) : Z :=
  match s with
  | [] => if bytes_HasPrefix [] sep then 0 else -1
  | _ :: s' =>
      let i := strings_LastIndex s' sep in
      if i =? -1 then (if bytes_HasPrefix s sep then 0 else -1) else i + 1
  end.

(** [strings.Contains(s, substr)] is [strings.Index(s, substr) >= 0], and
    [strings.Index] searches as [bytes.Index] does. *)
Definition strings_Contains (s substr : bytes) : bool := 0 <=? bytes_Index s substr.

(** What [runtime.Caller(1)] and [runtime.FuncForPC(pc).Name()] tell
    [ContextError] about the function that called it: the name, qualified
    by the import path of its package, and the line of the call. *)
Record Frame := {
  function : bytes;
  line : Z
}.

(** [ContextError], called from [caller]. *)
Definition ContextError (caller : Frame) (err : error_value) : error_value :=
  match err with
  | None => None
  | Some _ =>
      let funcName := function caller in
      let index := strings_LastIndex funcName (lit "/") in
      let funcName :=
        if negb (index =? -1) then slice_from funcName (index + 1) else funcName in
      Some (fmt_Errorf funcName (line caller) err)
  end.

Definition bind_error_text : bytes := lit "bind: address already in use".

(** [IsNetworkBindError]: [err.Error()] on the nil interface panics. *)
Definition IsNetworkBindError (err : error_value) : outcome bool :=
  match err with
  | None => Panics
  | Some e => Returns (strings_Contains (errors.Error e) bind_error_text)
  end.

(** A signed integer of [bits] bits, with its wrap-around. *)
Definition wrap (bits z : Z) : Z :=
  (z + 2 ^ (bits - 1)) mod 2 ^ bits - 2 ^ (bits - 1).

Definition in_int (bits z : Z) : Prop := - 2 ^ (bits - 1) <= z < 2 ^ (bits - 1).

(* ----------------------------------------------------------------- *)
(** *** The random helpers

    crypto/rand is the environment: [rand_Int st max] is the answer of
    [rand.Int(rand.Reader, max)], a number or an error, and [rand_Read st n]
    the bytes [rand.Read] puts at the front of a slice of [n] bytes with the
    error it returns; both leave a new state of the generator.  [package] is
    the import path of package psiphon and [int_bits] the size of [int] on
    the platform. *)

Section Random.

Variable RandState : Type.
Variable rand_Int : RandState -> Z -> (Z + errors.errorString) * RandState.
Variable rand_Read : RandState -> nat -> (bytes * error_value) * RandState.
Variable package : bytes.
Variable int_bits : Z.

Definition frame (name : bytes) (line : Z) : Frame :=
  {| function := package ++ lit "." ++ name; line := line |}.

(** [MakeSecureRandomInt64]; [rand.Int] panics when [max <= 0], and
    [randomInt.Int64()] keeps the low 64 bits. *)
Definition MakeSecureRandomInt64 (max : Z) (st : RandState)
    : outcome ((Z * error_value) * RandState) :=
  if max <=? 0 then Panics
  else
    match rand_Int st max with
    | (inr err, st') =>
        Returns ((0, ContextError (frame (lit "MakeSecureRandomInt64") 61) (Some err)), st')
    | (inl randomInt, st') => Returns ((wrap 64 randomInt, None), st')
    end.

(** [MakeSecureRandomInt]: [int64(max)] going in, [int(randomInt)] coming
    out. *)
Definition MakeSecureRandomInt (max : Z) (st : RandState)
    : outcome ((Z * error_value) * RandState) :=
  match MakeSecureRandomInt64 (wrap 64 max) st with
  | Panics => Panics
  | Returns ((randomInt, err), st') => Returns ((wrap int_bits randomInt, err), st')
  end.


End Random.

(* ================================================================= *)
(** * Examples and theorems *)

(* ================================================================= *)
(** ** The library models on sample inputs *)

Example lit_example : lit "{'a':1}" = [x7b; x22; x61; x22; x3a; x31; x7d].
Proof. reflexivity. Qed.

Example bytes_Index_example :
  bytes_Index (lit "ab" ++ [newline] ++ lit "c") [newline] = 2
  /\ bytes_Index (lit "abc") [newline] = -1.
Proof. split; reflexivity. Qed.

Example unquoteBytes_examples :
  json.unquoteBytes (lit "'Info'") = Some (lit "Info")
  /\ json.unquoteBytes (lit "'a\n\u0041\u00e9\ud83d\ude00\ud83dx\/'")
     = Some (lit "a" ++ [x0a] ++ lit "A"
               ++ [xc3; xa9; xf0; x9f; x98; x80; xef; xbf; xbd] ++ lit "x/")
  /\ json.unquoteBytes ([x22; xc3; xa9; xc3; x41; xff; xf0; x9f; x98; x80; x22])
     = Some [xc3; xa9; xef; xbf; xbd; x41; xef; xbf; xbd; xf0; x9f; x98; x80]
  /\ json.unquoteBytes (lit "'a") = None
  /\ json.unquoteBytes (lit "'\x'") = None.
Proof. repeat split; reflexivity. Qed.

Example checkValid_examples :
  json.checkValid (lit "{'a':[1,2.5e3,true,null,'xé'],'b':{}}") = None
  /\ json.checkValid (lit " 12 ") = None
  /\ json.checkValid (lit "{'a':1,}") = Some json.SyntaxError
  /\ json.checkValid (lit "{'a':1} x") = Some json.SyntaxError
  /\ json.checkValid (lit "hello") = Some json.SyntaxError
  /\ json.checkValid (lit "{'a':") = Some json.SyntaxError
  /\ json.checkValid [] = Some json.SyntaxError
  /\ json.checkValid (lit "01") = Some json.SyntaxError.
Proof. repeat split; reflexivity. Qed.

Example Unmarshal_examples :
  json.Unmarshal
    (lit "{'noticeType':'Info','data':{'msg':'hi'},'timestamp':'2024-01-01T00:00:00Z'}")
    zero_NoticeObject
  = ({| NoticeType := lit "Info"; Data := lit "{'msg':'hi'}";
        Timestamp := lit "2024-01-01T00:00:00Z" |}, None)
  /\ json.Unmarshal
       (lit " { 'x' : [1, {'data':2}] , 'DATA' : [ 1 , '}' ]  , 'Timestamp':'T', 'noticeType' : null } ")
       zero_NoticeObject
     = ({| NoticeType := []; Data := lit "[ 1 , '}' ]"; Timestamp := lit "T" |}, None)
  /\ json.Unmarshal (lit "{'noticeType':5,'data':-1.5e3,'timestamp':'T'}") zero_NoticeObject
     = ({| NoticeType := []; Data := lit "-1.5e3"; Timestamp := lit "T" |},
        Some (json.UnmarshalTypeError "number"))
  /\ json.Unmarshal (lit "not json") zero_NoticeObject
     = (zero_NoticeObject, Some json.SyntaxError)
  /\ json.Unmarshal (lit "{'noticeType':'Info','data':{}") zero_NoticeObject
     = (zero_NoticeObject, Some json.SyntaxError)
  /\ json.Unmarshal (lit "[1,2]") zero_NoticeObject
     = (zero_NoticeObject, Some (json.UnmarshalTypeError "array"))
  /\ json.Unmarshal (lit "{}") zero_NoticeObject = (zero_NoticeObject, None).
Proof. repeat split; reflexivity. Qed.

Example Write_example :
  Write (NewNoticeConsoleRewriter 7%nat)
    (lit "{'noticeType':'Info','data':{'msg':'hi'},'timestamp':'2024-01-01T00:00:00Z'}"
       ++ [newline]) fresh_world
  = (({| writer := 7%nat; buffer := [] |},
      {| closed := closed fresh_world;
         calls := [{| target := os_Stderr;
                      payload := lit "2024-01-01T00:00:00Z Info {'msg':'hi'}" ++ [newline];
                      result := None |}] |}),
     (77, None)).
Proof. reflexivity. Qed.

Example value_text_example : value_text (lit "{'msg':['hi',{'n':-1.5e3}],'ok':true}").
Proof. repeat split. Qed.

(* ================================================================= *)
(** ** Finding the first newline *)

Section Index.

Lemma byte_eqb_refl (c : byte) : Byte.eqb c c = true.
Proof. apply Byte.byte_dec_lb. reflexivity. Qed.

Lemma byte_eqb_neq (a b : byte) : a <> b -> Byte.eqb a b = false.
Proof.
  intros Hab. destruct (Byte.eqb a b) eqn:E; [|reflexivity].
  apply Byte.byte_dec_bl in E. contradiction.
Qed.

Lemma bytes_Index_lower_bound (s sep : bytes) : -1 <= bytes_Index s sep.
Proof.
  induction s as [|c s IH]; cbn [bytes_Index].
  - destruct (bytes_HasPrefix [] sep); lia.
  - destruct (bytes_HasPrefix (c :: s) sep); [lia|].
    destruct (bytes_Index s sep =? -1); lia.
Qed.

Lemma bytes_Index_absent (s : bytes) :
  ~ In newline s -> bytes_Index s [newline] = -1.
Proof.
  induction s as [|c s IH]; intros Hnot; [reflexivity|].
  cbn [bytes_Index bytes_HasPrefix].
  rewrite byte_eqb_neq by (intros Heq; apply Hnot; left; symmetry; exact Heq).
  cbn [andb]. rewrite IH by (intros Hin; apply Hnot; right; exact Hin).
  reflexivity.
Qed.

Lemma bytes_Index_first (line rest : bytes) :
  ~ In newline line ->
  bytes_Index (line ++ newline :: rest) [newline] = len line.
Proof.
  unfold len. induction line as [|c line IH]; intros Hnot.
  - cbn [app bytes_Index bytes_HasPrefix]. rewrite byte_eqb_refl. reflexivity.
  - cbn [app bytes_Index bytes_HasPrefix].
    rewrite byte_eqb_neq by (intros Heq; apply Hnot; left; symmetry; exact Heq).
    cbn [andb]. rewrite IH by (intros Hin; apply Hnot; right; exact Hin).
    cbn [length]. destruct (Z.of_nat (length line) =? -1) eqn:E; lia.
Qed.

(** A byte string has no newline, or splits at its first one. *)
Lemma first_newline (s : bytes) :
  ~ In newline s
  \/ exists line rest, s = line ++ newline :: rest /\ ~ In newline line.
Proof.
  induction s as [|c s [IH | (line & rest & -> & Hline)]].
  - left. intros [].
  - destruct (Byte.byte_eq_dec c newline) as [-> | Hc].
    + right. exists [], s. split; [reflexivity | intros []].
    + left. intros [Heq | Hin]; [apply Hc; exact Heq | apply IH; exact Hin].
  - right. destruct (Byte.byte_eq_dec c newline) as [-> | Hc].
    + exists [], (line ++ newline :: rest). split; [reflexivity | intros []].
    + exists (c :: line), rest. split; [reflexivity|].
      intros [Heq | Hin]; [apply Hc; exact Heq | apply Hline; exact Hin].
Qed.

Lemma slice_to_first (line rest : bytes) :
  slice_to (line ++ newline :: rest) (len line) = line.
Proof.
  unfold slice_to, len. rewrite Nat2Z.id.
  rewrite firstn_app, Nat.sub_diag, firstn_all. cbn [firstn]. apply app_nil_r.
Qed.

Lemma slice_from_first (line rest : bytes) :
  slice_from (line ++ newline :: rest) (len line + 1) = rest.
Proof.
  unfold slice_from, len.
  replace (Z.to_nat (Z.of_nat (length line) + 1)) with (length line + 1)%nat by lia.
  rewrite skipn_app.
  replace (length line + 1 - length line)%nat with 1%nat by lia.
  rewrite skipn_all2 by lia. reflexivity.
Qed.

End Index.

(* ================================================================= *)
(** ** What one call does *)

Lemma Write_no_newline (r : NoticeConsoleRewriter) (p : bytes) (world : World) :
  ~ In newline (buffer r ++ p) ->
  Write r p world = ((with_buffer r (buffer r ++ p), world), (len p, None)).
Proof.
  intros Hnot. unfold Write. cbn [buffer writer].
  rewrite bytes_Index_absent by exact Hnot. reflexivity.
Qed.

Lemma Write_line (r : NoticeConsoleRewriter) (p line rest : bytes) (world : World) :
  buffer r ++ p = line ++ newline :: rest ->
  ~ In newline line ->
  Write r p world
  = ((with_buffer r rest, stderr_write world (rewrite_line line)), (len p, None)).
Proof.
  intros Hsplit Hline. unfold Write. cbn [buffer writer].
  rewrite Hsplit, bytes_Index_first by exact Hline.
  destruct (Z.eqb_spec (len line) (-1)) as [E|_]; [unfold len in E; lia|].
  rewrite slice_to_first, slice_from_first.
  unfold rewrite_line, formatted.
  destruct (json.Unmarshal line zero_NoticeObject) as [obj e]. cbn [fst].
  reflexivity.
Qed.

Lemma written_stderr_write (world : World) (text : bytes) :
  written (stderr_write world text) = written world ++ [text].
Proof. unfold written, stderr_write. cbn [calls]. rewrite map_app. reflexivity. Qed.

Lemma calls_since_stderr_write (world : World) (text : bytes) :
  calls_since world (stderr_write world text)
  = [{| target := os_Stderr; payload := text;
        result := if closed world os_Stderr then Some os_ErrClosed else None |}].
Proof.
  unfold calls_since, stderr_write. cbn [calls].
  rewrite skipn_app, Nat.sub_diag, skipn_all. reflexivity.
Qed.

Lemma calls_since_refl (world : World) : calls_since world world = [].
Proof. unfold calls_since. apply skipn_all. Qed.

(** Every call falls under one of the two lemmas above. *)
Lemma Write_cases (r : NoticeConsoleRewriter) (p : bytes) (world : World) :
  (~ In newline (buffer r ++ p)
   /\ Write r p world = ((with_buffer r (buffer r ++ p), world), (len p, None)))
  \/ exists line rest,
       buffer r ++ p = line ++ newline :: rest
       /\ ~ In newline line
       /\ Write r p world
          = ((with_buffer r rest, stderr_write world (rewrite_line line)),
             (len p, None)).
Proof.
  destruct (first_newline (buffer r ++ p)) as [Hnot | (line & rest & Hsplit & Hline)].
  - left. split; [exact Hnot | apply Write_no_newline; exact Hnot].
  - right. exists line, rest. repeat split; try assumption.
    apply Write_line; assumption.
Qed.

Lemma with_buffer_same (r : NoticeConsoleRewriter) : with_buffer r (buffer r) = r.
Proof. destruct r. reflexivity. Qed.

(** With no newline anywhere in them, chunks only pile up in the buffer. *)
Lemma Writes_no_newline (chunks : list bytes) :
  forall (r : NoticeConsoleRewriter) (world : World),
    ~ In newline (buffer r ++ concat chunks) ->
    Writes r chunks world = (with_buffer r (buffer r ++ concat chunks), world).
Proof.
  induction chunks as [|p chunks IH]; intros r world Hnot.
  - cbn [Writes concat]. rewrite app_nil_r, with_buffer_same. reflexivity.
  - cbn [Writes concat] in *. rewrite app_assoc in Hnot.
    rewrite Write_no_newline
      by (intros Hin; apply Hnot; apply in_or_app; left; exact Hin).
    rewrite IH by exact Hnot.
    unfold with_buffer. cbn [buffer writer]. rewrite app_assoc. reflexivity.
Qed.

(* ================================================================= *)
(** ** The sample notices *)

Lemma rewrite_line_hi : rewrite_line notice_hi = line_hi.
Proof. reflexivity. Qed.

Lemma rewrite_line_bye : rewrite_line notice_bye = line_bye.
Proof. reflexivity. Qed.

Lemma notice_hi_no_newline : ~ In newline notice_hi.
Proof. intros H. vm_compute in H. intuition discriminate. Qed.

Lemma notice_bye_no_newline : ~ In newline notice_bye.
Proof. intros H. vm_compute in H. intuition discriminate. Qed.

(** Two notices in one chunk: the call prints the first and keeps the whole
    second line, newline included, in the buffer. *)
Lemma Write_two_notices (w : Writer) (world : World) :
  Write (NewNoticeConsoleRewriter w) two_notices world
  = (({| writer := w; buffer := notice_bye ++ [newline] |},
      stderr_write world line_hi),
     (len two_notices, None)).
Proof.
  rewrite (Write_line _ _ notice_hi (notice_bye ++ [newline])).
  - rewrite rewrite_line_hi. reflexivity.
  - reflexivity.
  - exact notice_hi_no_newline.
Qed.

(* ================================================================= *)
(** ** Properties of Write *)

(** A call hands at most one text to a writer. *)
Lemma Write_at_most_one_line (r : NoticeConsoleRewriter) (p : bytes) (world : World) :
  (length (calls_since world (snd (fst (Write r p world)))) <= 1)%nat.
Proof.
  destruct (Write_cases r p world) as [[_ ->] | (line & rest & _ & _ & ->)]; cbn [fst snd].
  - rewrite calls_since_refl. cbn [length]. lia.
  - rewrite calls_since_stderr_write. cbn [length]. lia.
Qed.

(** C1: every complete line in the buffer after the chunk is appended is
    printed within the same call, so that two complete lines in one chunk
    give two printed lines.  The code looks for one newline per call: on a
    new rewriter, a chunk made of two notices prints the first line only
    and leaves the second notice, complete with its newline, in the buffer. *)
Theorem Write_two_lines_prints_first_only (w : Writer) (world : World) :
  let res := Write (NewNoticeConsoleRewriter w) two_notices world in
  written (snd (fst res)) = written world ++ [line_hi]
  /\ written (snd (fst res)) <> written world ++ [line_hi; line_bye]
  /\ buffer (fst (fst res)) = notice_bye ++ [newline].
Proof.
  cbv zeta. rewrite Write_two_notices. cbn [fst snd buffer].
  rewrite written_stderr_write. repeat split.
  intros Heq. apply app_inv_head in Heq. discriminate Heq.
Qed.

(** C2: all output of a rewriter goes to the sink it was constructed with.
    The code never reads the [writer] field: every text a call hands over
    is handed to [os.Stderr], and a rewriter constructed with another sink
    (here the writer 7) prints a notice to [os.Stderr] and nothing to its
    sink. *)
Theorem Write_prints_to_Stderr :
  (forall (r : NoticeConsoleRewriter) (p : bytes) (world : World),
      Forall (fun c => target c = os_Stderr)
        (calls_since world (snd (fst (Write r p world)))))
  /\ (forall world : World,
         let res := Write (NewNoticeConsoleRewriter 7%nat) (notice_hi ++ [newline]) world in
         map target (calls_since world (snd (fst res))) = [os_Stderr]
         /\ map payload (calls_since world (snd (fst res))) = [line_hi]
         /\ filter (fun c => Nat.eqb (target c) 7) (calls_since world (snd (fst res))) = []).
Proof.
  split.
  - intros r p world.
    destruct (Write_cases r p world) as [[_ ->] | (line & rest & _ & _ & ->)]; cbn [fst snd].
    + rewrite calls_since_refl. constructor.
    + rewrite calls_since_stderr_write. repeat constructor.
  - intros world. cbv zeta.
    rewrite (Write_line _ _ notice_hi []) by (reflexivity || exact notice_hi_no_newline).
    cbn [fst snd]. rewrite calls_since_stderr_write, rewrite_line_hi.
    repeat split.
Qed.

(** C3, as the code has it: for every chunk and every rewriter state, Write
    returns the length of the chunk and a nil error, also when the write
    of the printed line fails; the failure is not reported. *)
Theorem Write_returns_len_nil (r : NoticeConsoleRewriter) (p : bytes) (world : World) :
  snd (Write r p world) = (len p, None).
Proof.
  destruct (Write_cases r p world) as [[_ ->] | (line & rest & _ & _ & ->)]; reflexivity.
Qed.

(** C3 as stated fails: with the standard error stream closed, on a rewriter
    whose sink is that stream, the write of the printed line fails and the
    error returned is nil. *)
Lemma Write_error_iff_sink_failure_fails :
  let res :=
    Write (NewNoticeConsoleRewriter os_Stderr) (notice_hi ++ [newline])
      stderr_closed_world in
  ~ (snd (snd res) <> None
     <-> write_failed stderr_closed_world (snd (fst res)) = true).
Proof.
  cbv zeta. intros [_ H]. apply H; reflexivity.
Qed.

(** C4: after a call the buffer holds no newline.  The code removes one line
    per call: after a chunk of two notices on a new rewriter the buffer is
    the second notice and its newline. *)
Theorem Write_leaves_newline_in_buffer (w : Writer) (world : World) :
  reachable (NewNoticeConsoleRewriter w)
  /\ In newline (buffer (fst (fst (Write (NewNoticeConsoleRewriter w) two_notices world)))).
Proof.
  split; [constructor|].
  rewrite Write_two_notices. cbn [fst buffer].
  apply in_or_app. right. left. reflexivity.
Qed.

(** An empty chunk changes nothing when the buffer holds no newline. *)
Lemma Write_empty_chunk_no_newline (r : NoticeConsoleRewriter) (world : World) :
  ~ In newline (buffer r) -> Write r [] world = ((r, world), (0, None)).
Proof.
  intros Hnot. rewrite Write_no_newline by (rewrite app_nil_r; exact Hnot).
  rewrite app_nil_r, with_buffer_same. reflexivity.
Qed.

(** C7: a call with the empty chunk prints nothing and leaves the buffer as
    it was.  In the state a rewriter is in after a chunk of two notices,
    which still buffers a complete line, the call with the empty chunk
    prints that line and empties the buffer. *)
Theorem Write_empty_chunk_prints_pending_line (w : Writer) (world0 : World) :
  let r := fst (fst (Write (NewNoticeConsoleRewriter w) two_notices world0)) in
  forall world : World,
    let res := Write r [] world in
    reachable r
    /\ written (snd (fst res)) = written world ++ [line_bye]
    /\ buffer r = notice_bye ++ [newline]
    /\ buffer (fst (fst res)) = [].
Proof.
  cbv zeta. intros world. split; [apply reachable_Write, reachable_new|].
  rewrite Write_two_notices. cbn [fst buffer].
  rewrite (Write_line _ _ notice_bye [])
    by (cbn [buffer]; rewrite ?app_nil_r; reflexivity || exact notice_bye_no_newline).
  cbn [fst snd buffer with_buffer]. rewrite written_stderr_write, rewrite_line_bye.
  repeat split.
Qed.

(** C10: the buffer after a call is a suffix of the old buffer followed by
    the chunk; what was removed in front of it is nothing, or one line
    without a newline followed by its newline, and that line is the one the
    call printed. *)
Theorem Write_buffer_suffix (r : NoticeConsoleRewriter) (p : bytes) (world : World) :
  exists consumed : bytes,
    buffer r ++ p = consumed ++ buffer (fst (fst (Write r p world)))
    /\ ((consumed = [] /\ written (snd (fst (Write r p world))) = written world)
        \/ exists line : bytes,
             consumed = line ++ [newline]
             /\ ~ In newline line
             /\ written (snd (fst (Write r p world)))
                = written world ++ [rewrite_line line]).
Proof.
  destruct (Write_cases r p world) as [[_ ->] | (line & rest & Hsplit & Hline & ->)];
    cbn [fst snd buffer with_buffer].
  - exists []. split; [reflexivity|]. left. split; reflexivity.
  - exists (line ++ [newline]). split.
    + rewrite Hsplit, <- app_assoc. reflexivity.
    + right. exists line. repeat split; [exact Hline|].
      apply written_stderr_write.
Qed.

(* ================================================================= *)
(** ** Where the fields of a decoded notice come from *)

Section Decoding.

Lemma slice_infix (data : bytes) (i j : nat) :
  exists pre post, data = pre ++ slice data i j ++ post.
Proof.
  exists (firstn i data), (skipn (j - i) (skipn i data)).
  unfold slice. rewrite (firstn_skipn (j - i) (skipn i data)).
  symmetry. apply firstn_skipn.
Qed.

Lemma stored_from_refl (data : bytes) (v : NoticeObject) : stored_from data v v.
Proof. repeat split; left; reflexivity. Qed.

Lemma store_string_cases (item old : bytes) (saved : option json.error) :
  fst (json.store_string item old saved) = old
  \/ json.unquoteBytes item = Some (fst (json.store_string item old saved)).
Proof.
  unfold json.store_string. destruct item as [|c item]; [left; reflexivity|].
  repeat match goal with
         | |- context [if ?b then _ else _] => destruct b
         end; try (left; reflexivity).
  destruct (json.unquoteBytes (c :: item)); [right | left]; reflexivity.
Qed.

Lemma store_member_stored (data : bytes) (v obj : NoticeObject)
    (saved : option json.error) (ks ke vs ve : nat) :
  stored_from data v obj ->
  stored_from data v
    (fst (json.store_member (slice data ks ke) (slice data vs ve) (obj, saved))).
Proof.
  intros (HD & HN & HT). unfold json.store_member.
  destruct (json.unquoteBytes (slice data ks ke)) as [k|]; [|repeat split; assumption].
  destruct (json.find_field k) as [[| |]|]; [| | |repeat split; assumption].
  - destruct (store_string_cases (slice data vs ve) (NoticeType obj) saved) as [E|E];
      destruct (json.store_string (slice data vs ve) (NoticeType obj) saved) as [s saved'];
      cbn [fst] in *; repeat split; cbn [Data NoticeType Timestamp]; try assumption.
    + rewrite E. exact HN.
    + right. exists vs, ve. exact E.
  - repeat split; cbn [Data NoticeType Timestamp]; try assumption.
    right. exists vs, ve. reflexivity.
  - destruct (store_string_cases (slice data vs ve) (Timestamp obj) saved) as [E|E];
      destruct (json.store_string (slice data vs ve) (Timestamp obj) saved) as [s saved'];
      cbn [fst] in *; repeat split; cbn [Data NoticeType Timestamp]; try assumption.
    + rewrite E. exact HT.
    + right. exists vs, ve. exact E.
Qed.

Lemma store_members_stored (data : bytes) (v : NoticeObject) (ms : list json.member) :
  forall (obj : NoticeObject) (saved : option json.error),
    stored_from data v obj ->
    stored_from data v
      (fst (fold_left
              (fun st (m : json.member) =>
                 let '((ks, ke), (vs, ve)) := m in
                 json.store_member (slice data ks ke) (slice data vs ve) st)
              ms (obj, saved))).
Proof.
  induction ms as [|[[ks ke] [vs ve]] ms IH]; intros obj saved Hobj; [exact Hobj|].
  cbn [fold_left].
  pose proof (store_member_stored data v obj saved ks ke vs ve Hobj) as Hstep.
  destruct (json.store_member (slice data ks ke) (slice data vs ve) (obj, saved))
    as [obj' saved'].
  apply IH. exact Hstep.
Qed.

Lemma object_stored (data : bytes) (v : NoticeObject) :
  stored_from data v (fst (json.object data v)).
Proof. apply store_members_stored, stored_from_refl. Qed.

Theorem Unmarshal_stored (data : bytes) (v : NoticeObject) :
  stored_from data v (fst (json.Unmarshal data v)).
Proof.
  unfold json.Unmarshal.
  destruct (json.checkValid data); [apply stored_from_refl|].
  unfold json.unmarshal.
  destruct (json.skipSpace data) as [|c rest]; [apply stored_from_refl|].
  repeat match goal with
         | |- context [if ?b then _ else _] => destruct b
         end; try apply stored_from_refl.
  apply object_stored.
Qed.

(** Input that is not syntactically JSON leaves the target untouched. *)
Lemma Unmarshal_invalid (data : bytes) (v : NoticeObject) :
  json.checkValid data <> None -> fst (json.Unmarshal data v) = v.
Proof.
  intros H. unfold json.Unmarshal.
  destruct (json.checkValid data); [reflexivity | contradiction].
Qed.

End Decoding.

(* ================================================================= *)
(** ** Notices in their usual layout *)

Section Runs.

Import json.

Lemma run_app (a b : bytes) :
  forall s ph i ms s' ph' ms2 s2 ph2,
    run s ph i a = Some (ms, s', ph') ->
    run s' ph' (i + length a) b = Some (ms2, s2, ph2) ->
    run s ph i (a ++ b) = Some (ms ++ ms2, s2, ph2).
Proof.
  induction a as [|c a IH]; intros s ph i ms s' ph' ms2 s2 ph2 Ha Hb.
  - cbn [run] in Ha. injection Ha as <- <- <-.
    cbn [length] in Hb. rewrite Nat.add_0_r in Hb. exact Hb.
  - cbn [run app] in *.
    destruct (scan_step s c) as [s1 op].
    destruct (opcode_eqb op scanError); [discriminate|].
    destruct (next_phase ph i (length (parseState s)) (length (parseState s1)) op)
      as [ms1 ph1].
    destruct (run s1 ph1 (S i) a) as [[[ms' sf] phf]|] eqn:E; [|discriminate].
    injection Ha as <- <- <-.
    cbn [length] in Hb. rewrite Nat.add_succ_r in Hb.
    rewrite (IH _ _ _ _ _ _ _ _ _ E Hb), app_assoc. reflexivity.
Qed.

Lemma members_from_run (a b : bytes) :
  forall s ph i ms s' ph',
    run s ph i a = Some (ms, s', ph') ->
    members_from s ph i (a ++ b) = ms ++ members_from s' ph' (i + length a) b.
Proof.
  induction a as [|c a IH]; intros s ph i ms s' ph' Ha.
  - cbn [run] in Ha. injection Ha as <- <- <-.
    cbn [length app]. rewrite Nat.add_0_r. reflexivity.
  - cbn [run app members_from] in *.
    destruct (scan_step s c) as [s1 op].
    destruct (opcode_eqb op scanError); [discriminate|].
    destruct (next_phase ph i (length (parseState s)) (length (parseState s1)) op)
      as [ms1 ph1].
    destruct (run s1 ph1 (S i) a) as [[[ms' sf] phf]|] eqn:E; [|discriminate].
    injection Ha as <- <- <-.
    rewrite (IH _ _ _ _ _ _ E), <- app_assoc.
    cbn [length]. rewrite Nat.add_succ_r. reflexivity.
Qed.

Lemma checkValid_from_run (a b : bytes) :
  forall s ph i ms s' ph',
    run s ph i a = Some (ms, s', ph') ->
    checkValid_from s (a ++ b) = checkValid_from s' b.
Proof.
  induction a as [|c a IH]; intros s ph i ms s' ph' Ha.
  - cbn [run] in Ha. injection Ha as <- <- <-. reflexivity.
  - cbn [run app checkValid_from] in *.
    destruct (scan_step s c) as [s1 op].
    destruct (opcode_eqb op scanError); [discriminate|].
    destruct (next_phase ph i (length (parseState s)) (length (parseState s1)) op)
      as [ms1 ph1].
    destruct (run s1 ph1 (S i) a) as [[[ms' sf] phf]|] eqn:E; [|discriminate].
    injection Ha as <- <- <-.
    apply (IH _ _ _ _ _ _ E).
Qed.

(* ----------------------------------------------------------------- *)
(** *** Case analysis on one step of the scanner *)

Ltac step_cases :=
  unfold scan_step, stateBeginValueOrEmpty, stateBeginStringOrEmpty, stateBeginValue,
    stateBeginString, state1, state0, stateDot0, stateE, stateESign, stateE0,
    stateDot, stateNeg, stateInString, stateInStringEsc, stateHex, stateLetter,
    stateEndValue, stateEndTop, pushParseState, popParseState, scan_error,
    with_step, with_parseState in *;
  cbn [step endTop parseState err fst snd tl app] in *.

Ltac split_ifs :=
  repeat (match goal with
          | H : context [if ?b then _ else _] |- _ => destruct b eqn:?
          | H : context [match ?x with _ => _ end] |- _ => destruct x eqn:?
          | |- context [if ?b then _ else _] => destruct b eqn:?
          | |- context [match ?x with _ => _ end] => destruct x eqn:?
          end; cbn [app tl] in *; try discriminate).

Ltac byte_clash :=
  match goal with
  | H1 : (?c == ?a) = true, H2 : (?c == ?b) = true |- _ =>
      apply Byte.byte_dec_bl in H1; apply Byte.byte_dec_bl in H2; congruence
  end.

Lemma skip_space_is_space (s s' : scanner) (c : byte) :
  scan_step s c = (s', scanSkipSpace) -> isSpace c = true.
Proof.
  destruct s as [st et ps er]. step_cases.
  destruct st; intros H; split_ifs; try assumption; try congruence.
Qed.

Lemma step_clean (s s' : scanner) (c : byte) (op : opcode) :
  clean s ->
  scan_step s c = (s', op) ->
  (op = scanError -> err s' <> None)
  /\ (err s' = None -> clean s')
  /\ (err s' <> None -> step s' = StateError).
Proof.
  destruct s as [st et ps er]. intros [Her Hst]. cbn [err step] in *. subst er.
  step_cases.
  destruct st; intros H; split_ifs;
    try (injection H as <- <-); cbn [err step];
    unfold clean; cbn [err step];
    repeat split; intros; try congruence; try discriminate.
Qed.

Lemma checkValid_from_dead (s : scanner) (d : bytes) :
  err s <> None -> step s = StateError -> checkValid_from s d <> None.
Proof.
  destruct s as [st et ps er]. cbn [err step]. intros Her ->.
  destruct d as [|c d]; cbn [checkValid_from]; unfold eof, scan_step; cbn [err step];
    destruct er; cbn [opcode_eqb err]; congruence.
Qed.

Lemma opcode_eqb_eq (a b : opcode) : opcode_eqb a b = true <-> a = b.
Proof. split; [destruct a, b; (reflexivity || discriminate) | intros ->; destruct b; reflexivity]. Qed.

Lemma valid_steps (d : bytes) :
  forall s, clean s -> checkValid_from s d = None ->
    exists sf, steps s d sf /\ clean sf
               /\ (endTop sf = true \/ endTop (fst (scan_step sf " ")) = true).
Proof.
  induction d as [|c d IH]; intros s Hs Hvalid.
  - exists s. split; [reflexivity|]. split; [exact Hs|].
    cbn [checkValid_from] in Hvalid. unfold eof in Hvalid.
    destruct Hs as [Her _]. rewrite Her in Hvalid.
    destruct (endTop s); [left; reflexivity|]. right.
    destruct (endTop (fst (scan_step s " "))); [reflexivity|].
    destruct (err (fst (scan_step s " "))) eqn:E; cbn [opcode_eqb] in Hvalid.
    + congruence.
    + unfold scan_error in Hvalid. cbn [fst err] in Hvalid. discriminate.
  - cbn [checkValid_from] in Hvalid.
    destruct (scan_step s c) as [s1 op] eqn:Hstep.
    destruct (step_clean s s1 c op Hs Hstep) as (Herr & Hclean & Hdead).
    destruct (opcode_eqb op scanError) eqn:Hop.
    + apply opcode_eqb_eq in Hop. exfalso. apply (Herr Hop). exact Hvalid.
    + destruct (err s1) eqn:E.
      * exfalso. apply (checkValid_from_dead s1 d); try assumption; try congruence.
        apply Hdead. congruence.
      * destruct (IH s1 (Hclean eq_refl) Hvalid) as (sf & Hsteps & Hsf & Hend).
        exists sf. split; [|split; assumption].
        cbn [steps]. exists s1, op. repeat split; try assumption; try (apply Hclean; reflexivity).
        intros ->. discriminate Hop.
Qed.

(* ----------------------------------------------------------------- *)
(** *** A value scanned on its own and inside an object *)

Lemma embeds_step (T E T1 : scanner) (c : byte) (opT : opcode) :
  embeds T E -> clean T ->
  scan_step T c = (T1, opT) ->
  opT <> scanError -> clean T1 ->
  (N.of_nat (length (parseState T1)) < maxNestingDepth)%N ->
  exists E1 opE,
    scan_step E c = (E1, opE) /\ embeds T1 E1 /\ opE <> scanError
    /\ (length (parseState E) = 1%nat -> opE <> scanObjectValue).
Proof.
  destruct T as [stT etT psT erT], E as [stE etE psE erE].
  unfold embeds, clean, base. cbn [err step endTop parseState].
  intros (-> & -> & -> & Hwf & Hcase) [-> HstT] Hstep HopT [HerT1 HstT1] Hdepth.
  destruct (isSpace c) eqn:Hsp;
  destruct Hcase as [(-> & -> & HnotTop) | (-> & -> & -> & ->)];
  try (destruct psT as [|[| |] psT]);
  try (destruct stT; try congruence);
  step_cases; rewrite ?Hsp in *; cbn [negb] in *;
  split_ifs;
  try (injection Hstep as <- <-); cbn [err step endTop parseState] in *;
  try congruence.
  all: try (exfalso; apply (Hwf eq_refl); reflexivity).
  all: try byte_clash.
  all: try match goal with
           | H : (N.of_nat (length _) <=? maxNestingDepth)%N = false |- _ =>
               exfalso; apply N.leb_gt in H; unfold maxNestingDepth in *;
               cbn [length] in *; rewrite ?length_app in *; cbn [length] in *; lia
           end.
  all: eexists; eexists; (split; [reflexivity|]);
    cbn [err step endTop parseState app];
    (split; [|split; [try congruence|intros Hlen; try discriminate Hlen; try congruence]]);
    repeat (split; [congruence|]);
    try first [ left; repeat split; congruence | right; repeat split; congruence ].
  all: exfalso; cbn [length] in Hlen; rewrite length_app in Hlen;
    cbn [length] in Hlen; lia.
Qed.

Lemma next_phase_in_value (key : nat * nat) (start stop i depth depth' : nat) (op : opcode) :
  (depth = 1%nat -> op <> scanObjectValue) ->
  depth' <> 0%nat ->
  next_phase (InValue key start stop) i depth depth' op
  = ([], InValue key start (if opcode_eqb op scanSkipSpace then stop else S i)).
Proof.
  intros Hop Hdepth. cbn [next_phase].
  destruct (Nat.eqb_spec depth 1) as [E|_]; cbn [andb].
  - destruct (opcode_eqb op scanObjectValue) eqn:Eop.
    + apply opcode_eqb_eq in Eop. destruct (Hop E Eop).
    + destruct (Nat.eqb_spec depth' 0); [contradiction|].
      destruct (opcode_eqb op scanSkipSpace); reflexivity.
  - destruct (Nat.eqb_spec depth' 0); [contradiction|].
    destruct (opcode_eqb op scanSkipSpace); reflexivity.
Qed.

Lemma embeds_depth (T E : scanner) : embeds T E -> length (parseState E) <> 0%nat.
Proof.
  intros (_ & _ & -> & _). rewrite length_app. cbn. lia.
Qed.

(** Inside the object the bytes of a value are scanned as they are on their
    own, complete no member, and leave the end of the value's text after
    the last byte that is not white space. *)
Lemma embedded_value_run (d : bytes) :
  forall (T E Tf : scanner) (i : nat) (key : nat * nat) (start stop : nat),
    embeds T E -> clean T -> steps T d Tf ->
    (N.of_nat (max_depth T d) < maxNestingDepth)%N ->
    exists Ef stop',
      run E (InValue key start stop) i d = Some ([], Ef, InValue key start stop')
      /\ embeds Tf Ef
      /\ (d = [] -> stop' = stop)
      /\ (forall d0 c, d = d0 ++ [c] -> isSpace c = false -> stop' = (i + length d)%nat).
Proof.
  induction d as [|c d IH]; intros T E Tf i key start stop HTE HT Hsteps Hdepth.
  - cbn [steps] in Hsteps. subst Tf. exists E, stop. cbn [run].
    split; [reflexivity|]. split; [exact HTE|]. split; [reflexivity|].
    intros d0 c0 Hd0. destruct d0; discriminate Hd0.
  - cbn [steps] in Hsteps. destruct Hsteps as (T1 & opT & HstepT & HopT & HT1 & Hsteps).
    cbn [max_depth] in Hdepth. rewrite HstepT in Hdepth. cbn [fst] in Hdepth.
    destruct (embeds_step T E T1 c opT HTE HT HstepT HopT HT1 ltac:(lia))
      as (E1 & opE & HstepE & HTE1 & HopE & Hnoval).
    destruct (IH T1 E1 Tf (S i) key start
                (if opcode_eqb opE scanSkipSpace then stop else S i)
                HTE1 HT1 Hsteps ltac:(lia))
      as (Ef & stop' & Hrun & HTEf & Hnil & Hlast).
    exists Ef, stop'. cbn [run]. rewrite HstepE.
    destruct (opcode_eqb opE scanError) eqn:EopE;
      [apply opcode_eqb_eq in EopE; contradiction|].
    rewrite (next_phase_in_value key start stop i _ _ opE Hnoval (embeds_depth _ _ HTE1)).
    rewrite Hrun. split; [reflexivity|]. split; [exact HTEf|]. split; [discriminate|].
    intros d0 c0 Hd0 Hc0. cbn [length]. rewrite Nat.add_succ_r.
    destruct d as [|c' d'].
    + destruct d0 as [|x [|y d0]]; try discriminate Hd0.
      injection Hd0 as <-. rewrite (Hnil eq_refl).
      destruct (opcode_eqb opE scanSkipSpace) eqn:Esp; [|cbn [length]; lia].
      apply opcode_eqb_eq in Esp. subst opE.
      apply skip_space_is_space in HstepE. congruence.
    + destruct d0 as [|x d0]; [discriminate Hd0|].
      injection Hd0 as _ Hd0. rewrite (Hlast d0 c0 Hd0 Hc0). cbn [length]. lia.
Qed.

Lemma embeds_reset : embeds reset at_value.
Proof.
  unfold embeds. cbn. repeat split; try discriminate.
  left. repeat split; discriminate.
Qed.

Lemma clean_reset : clean reset.
Proof. split; [reflexivity | discriminate]. Qed.

(** The comma after a complete value ends the member. *)
Lemma embedded_value_end (Tf Ef : scanner) :
  embeds Tf Ef -> clean Tf ->
  endTop Tf = true \/ endTop (fst (scan_step Tf " ")) = true ->
  scan_step Ef "," = (at_next_key, scanObjectValue)
  /\ length (parseState Ef) = 1%nat.
Proof.
  destruct Tf as [stT etT psT erT], Ef as [stE etE psE erE].
  unfold embeds, clean, base. cbn [err step endTop parseState].
  intros (-> & -> & -> & Hwf & Hcase) [-> HstT] Hend.
  destruct Hcase as [(-> & -> & HnotTop) | (-> & -> & -> & ->)];
    [|split; reflexivity].
  destruct Hend as [Hend | Hend]; [discriminate Hend|].
  destruct psT as [|p psT]; destruct stT; try congruence;
    vm_compute in Hend; try discriminate Hend;
    try (destruct p; discriminate Hend);
    try (split; reflexivity).
Qed.

(* ----------------------------------------------------------------- *)
(** *** Plain strings *)

Lemma plain_byte_facts (c : byte) :
  plain_byte c = true ->
  (c == x22) = false /\ (c == x5c) = false
  /\ (code c <? 32)%N = false /\ (code c <? 128)%N = true.
Proof.
  unfold plain_byte, in_range. intros H.
  apply andb_prop in H as [H H3]. apply andb_prop in H as [H H2].
  apply andb_prop in H as [H0 H1].
  apply negb_true_iff in H2, H3. apply N.leb_le in H0, H1.
  repeat split; try assumption; [apply N.ltb_ge | apply N.ltb_lt]; lia.
Qed.

Lemma unquote_loop_plain (s : bytes) : plain s = true -> unquote_loop s = Some s.
Proof.
  induction s as [|c s IH]; intros H; [reflexivity|].
  cbn [plain forallb] in H. apply andb_prop in H as [Hc Hs].
  destruct (plain_byte_facts c Hc) as (Hq & Hb & Hlo & Hhi).
  cbn [unquote_loop]. rewrite Hb, Hq, Hlo, Hhi. cbn [orb].
  rewrite (IH Hs). reflexivity.
Qed.

Lemma unquoteBytes_quoted (s : bytes) :
  plain s = true -> unquoteBytes (quoted s) = Some s.
Proof.
  intros H. unfold unquoteBytes, quoted.
  rewrite rev_app_distr. cbn [rev app]. rewrite rev_involutive.
  change ((x22 == x22) && (x22 == x22)) with true. cbv iota.
  apply unquote_loop_plain. exact H.
Qed.

Lemma store_string_quoted (s old : bytes) (saved : option json.error) :
  plain s = true -> store_string (quoted s) old saved = (s, saved).
Proof.
  intros H. unfold store_string.
  rewrite (unquoteBytes_quoted s H). reflexivity.
Qed.

Lemma run_plain (s : bytes) :
  forall (p : parse_state) (ps : list parse_state) (i : nat) (key : nat * nat) (start : nat),
    plain s = true ->
    run (in_string (p :: ps)) (InValue key start i) i s
    = Some ([], in_string (p :: ps), InValue key start (i + length s)).
Proof.
  induction s as [|c s IH]; intros p ps i key start H.
  - cbn [run length]. rewrite Nat.add_0_r. reflexivity.
  - cbn [plain forallb] in H. apply andb_prop in H as [Hc Hs].
    destruct (plain_byte_facts c Hc) as (Hq & Hb & Hlo & _).
    cbn [run]. unfold scan_step, in_string at 1. cbn [step]. unfold stateInString.
    rewrite Hq, Hb, Hlo. cbn [opcode_eqb parseState].
    rewrite next_phase_in_value by (intros; discriminate).
    cbn [opcode_eqb].
    change {| step := StateInString; endTop := false; parseState := p :: ps; err := None |}
      with (in_string (p :: ps)).
    rewrite (IH p ps (S i) key start Hs).
    cbn [length app]. rewrite Nat.add_succ_r. reflexivity.
Qed.

(* ----------------------------------------------------------------- *)
(** *** The fixed parts of a notice *)

Lemma run_open :
  run reset AtTop 0 (lit "{'noticeType':" ++ [x22])
  = Some ([], in_string base, InValue (1, 13)%nat 14 15).
Proof. reflexivity. Qed.

Lemma run_to_data (key : nat * nat) (start i : nat) :
  run (in_string base) (InValue key start i) i (x22 :: lit ",'data':")
  = Some ([(key, (start, S i))], at_value, AtValue ((2 + i)%nat, (8 + i)%nat)).
Proof. reflexivity. Qed.

Lemma run_to_timestamp (j : nat) :
  run at_next_key AtKey j (lit "'timestamp':" ++ [x22])
  = Some ([], in_string base, InValue (j, (11 + j)%nat) (12 + j) (13 + j)).
Proof. reflexivity. Qed.

Lemma run_close (key : nat * nat) (start i : nat) :
  run (in_string base) (InValue key start i) i (x22 :: lit "}")
  = Some ([(key, (start, S i))], at_end, Done).
Proof. reflexivity. Qed.

(* ----------------------------------------------------------------- *)
(** *** The payload *)

Lemma trimmed_ends (d : bytes) :
  trimmed d = true ->
  (exists c d', d = c :: d' /\ isSpace c = false)
  /\ (exists d0 c, d = d0 ++ [c] /\ isSpace c = false).
Proof.
  unfold trimmed. destruct d as [|c d']; [discriminate|].
  destruct (rev (c :: d')) as [|c' r] eqn:Hrev; [discriminate|].
  intros H. apply andb_prop in H as [Hc Hc']. apply negb_true_iff in Hc, Hc'.
  split.
  - exists c, d'. split; [reflexivity | exact Hc].
  - exists (rev r), c'. split; [|exact Hc'].
    rewrite <- (rev_involutive (c :: d')), Hrev. reflexivity.
Qed.

Lemma next_phase_at_value (key : nat * nat) (i depth depth' : nat) (op : opcode) :
  op <> scanSkipSpace ->
  next_phase (AtValue key) i depth depth' op = ([], InValue key i (S i)).
Proof. intros H. destruct op; try reflexivity. congruence. Qed.

Lemma run_value (d : bytes) (key : nat * nat) (i : nat) :
  value_text d ->
  exists Ef,
    run at_value (AtValue key) i d = Some ([], Ef, InValue key i (i + length d))
    /\ scan_step Ef "," = (at_next_key, scanObjectValue)
    /\ length (parseState Ef) = 1%nat.
Proof.
  intros (Hvalid & Htrim & Hdepth).
  destruct (trimmed_ends d Htrim) as ((c & d' & -> & Hc) & (d0 & c' & Hd0 & Hc')).
  destruct (valid_steps _ reset clean_reset Hvalid) as (Tf & Hsteps & HTf & Hend).
  cbn [steps] in Hsteps. destruct Hsteps as (T1 & opT & HstepT & HopT & HT1 & Hsteps).
  cbn [max_depth] in Hdepth. rewrite HstepT in Hdepth. cbn [fst] in Hdepth.
  destruct (embeds_step reset at_value T1 c opT embeds_reset clean_reset
              HstepT HopT HT1 ltac:(lia))
    as (E1 & opE & HstepE & HTE1 & HopE & _).
  destruct (embedded_value_run d' T1 E1 Tf (S i) key i (S i) HTE1 HT1 Hsteps ltac:(lia))
    as (Ef & stop' & Hrun & HTEf & Hnil & Hlast).
  destruct (embedded_value_end Tf Ef HTEf HTf Hend) as [Hcomma Hlen].
  exists Ef. split; [|split; assumption].
  cbn [run]. rewrite HstepE.
  destruct (opcode_eqb opE scanError) eqn:EopE;
    [apply opcode_eqb_eq in EopE; contradiction|].
  rewrite next_phase_at_value.
  - rewrite Hrun. cbn [app length]. rewrite Nat.add_succ_r.
    destruct d' as [|x d'].
    + rewrite (Hnil eq_refl). cbn [length]. rewrite Nat.add_0_r. reflexivity.
    + destruct d0 as [|y d0]; [discriminate Hd0|]. injection Hd0 as _ Hd0.
      rewrite (Hlast d0 c' Hd0 Hc'). reflexivity.
  - intros ->. apply skip_space_is_space in HstepE. congruence.
Qed.

Lemma run_comma (Ef : scanner) (key : nat * nat) (start stop j : nat) :
  scan_step Ef "," = (at_next_key, scanObjectValue) ->
  length (parseState Ef) = 1%nat ->
  run Ef (InValue key start stop) j [","%byte]
  = Some ([(key, (start, stop))], at_next_key, AtKey).
Proof.
  intros Hstep Hlen. cbn [run]. rewrite Hstep, Hlen. reflexivity.
Qed.

Lemma run_app_at (a b : bytes) (s : scanner) (ph : phase) (i j : nat)
    (ms : list member) (s' : scanner) (ph' : phase)
    (ms2 : list member) (s2 : scanner) (ph2 : phase) :
  run s ph i a = Some (ms, s', ph') ->
  j = (i + length a)%nat ->
  run s' ph' j b = Some (ms2, s2, ph2) ->
  run s ph i (a ++ b) = Some (ms ++ ms2, s2, ph2).
Proof. intros Ha -> Hb. exact (run_app a b _ _ _ _ _ _ _ _ _ Ha Hb). Qed.

(* ----------------------------------------------------------------- *)
(** *** The whole notice *)

Lemma notice_text_pieces (nt d ts : bytes) :
  notice_text nt d ts
  = (lit "{'noticeType':" ++ [x22]) ++ nt ++ (x22 :: lit ",'data':") ++ d
      ++ [","%byte] ++ (lit "'timestamp':" ++ [x22]) ++ ts ++ (x22 :: lit "}").
Proof.
  unfold notice_text, quoted.
  repeat (progress (rewrite <- ?app_assoc; cbn [app])). reflexivity.
Qed.

Lemma run_notice_text (nt d ts : bytes) :
  plain nt = true -> plain ts = true -> value_text d ->
  run reset AtTop 0 (notice_text nt d ts)
  = Some (notice_members (length nt) (length d) (length ts), at_end, Done).
Proof.
  intros Hnt Hts Hd.
  set (n := length nt). set (m := length d). set (t := length ts).
  destruct (run_value d ((17 + n)%nat, (23 + n)%nat) (24 + n) Hd)
    as (Ef & Hvalue & Hcomma & Hlen).
  rewrite notice_text_pieces.
  assert (Hrun : exists ms,
             run reset AtTop 0
               ((lit "{'noticeType':" ++ [x22]) ++ nt ++ (x22 :: lit ",'data':") ++ d
                  ++ [","%byte] ++ (lit "'timestamp':" ++ [x22]) ++ ts ++ (x22 :: lit "}"))
             = Some (ms, at_end, Done)
             /\ ms = notice_members n m t).
  { eexists. split.
    - eapply run_app_at; [exact run_open | reflexivity |].
      eapply (run_app_at nt _ _ _ _ (15 + n));
        [apply (run_plain nt _ _ 15); exact Hnt | reflexivity |].
      eapply (run_app_at _ _ _ _ _ (24 + n));
        [apply (run_to_data _ _ (15 + n)) | cbn; lia |].
      eapply (run_app_at d _ _ _ _ (24 + n + m)); [exact Hvalue | reflexivity |].
      eapply (run_app_at _ _ _ _ _ (25 + n + m));
        [apply (run_comma Ef _ _ _ _ Hcomma Hlen) | cbn; lia |].
      eapply (run_app_at _ _ _ _ _ (13 + (25 + n + m)));
        [apply (run_to_timestamp (25 + n + m)) | cbn; lia |].
      eapply (run_app_at ts _ _ _ _ (13 + (25 + n + m) + t));
        [apply (run_plain ts _ _ (13 + (25 + n + m))); exact Hts | reflexivity |].
      apply run_close.
    - unfold notice_members. cbn [app].
      repeat (f_equal; try lia). }
  destruct Hrun as (ms & Hrun & ->). exact Hrun.
Qed.

Lemma slice_at (pre x post : bytes) (i j : nat) :
  i = length pre -> j = (i + length x)%nat -> slice (pre ++ x ++ post) i j = x.
Proof.
  intros -> ->. unfold slice.
  rewrite skipn_app, skipn_all, Nat.sub_diag. cbn [skipn app].
  replace (length pre + length x - length pre)%nat with (length x) by lia.
  rewrite firstn_app, Nat.sub_diag, firstn_all. cbn [firstn]. apply app_nil_r.
Qed.

Ltac regroup :=
  unfold notice_text, quoted;
  repeat (progress (rewrite <- ?app_assoc; cbn [app])); reflexivity.

Ltac lengths :=
  unfold quoted; repeat first [rewrite length_app | progress cbn [length]]; cbn; lia.

Lemma notice_slices (nt d ts : bytes) :
  let L := notice_text nt d ts in
  let n := length nt in
  let m := length d in
  let t := length ts in
  slice L 1 13 = lit "'noticeType'"
  /\ slice L 14 (16 + n) = quoted nt
  /\ slice L (17 + n) (23 + n) = lit "'data'"
  /\ slice L (24 + n) (24 + n + m) = d
  /\ slice L (25 + n + m) (36 + n + m) = lit "'timestamp'"
  /\ slice L (37 + n + m) (39 + n + m + t) = quoted ts.
Proof.
  cbv zeta. split; [|split; [|split; [|split; [|split]]]].
  - replace (notice_text nt d ts)
      with (lit "{" ++ lit "'noticeType'"
              ++ (lit ":" ++ quoted nt ++ lit ",'data':" ++ d ++ lit ",'timestamp':"
                    ++ quoted ts ++ lit "}")) by regroup.
    apply slice_at; reflexivity.
  - replace (notice_text nt d ts)
      with (lit "{'noticeType':" ++ quoted nt
              ++ (lit ",'data':" ++ d ++ lit ",'timestamp':" ++ quoted ts ++ lit "}"))
      by regroup.
    apply slice_at; [reflexivity | lengths].
  - replace (notice_text nt d ts)
      with ((lit "{'noticeType':" ++ quoted nt ++ lit ",") ++ lit "'data'"
              ++ (lit ":" ++ d ++ lit ",'timestamp':" ++ quoted ts ++ lit "}"))
      by regroup.
    apply slice_at; lengths.
  - replace (notice_text nt d ts)
      with ((lit "{'noticeType':" ++ quoted nt ++ lit ",'data':") ++ d
              ++ (lit ",'timestamp':" ++ quoted ts ++ lit "}"))
      by regroup.
    apply slice_at; lengths.
  - replace (notice_text nt d ts)
      with ((lit "{'noticeType':" ++ quoted nt ++ lit ",'data':" ++ d ++ lit ",")
              ++ lit "'timestamp'" ++ (lit ":" ++ quoted ts ++ lit "}"))
      by regroup.
    apply slice_at; lengths.
  - replace (notice_text nt d ts)
      with ((lit "{'noticeType':" ++ quoted nt ++ lit ",'data':" ++ d
               ++ lit ",'timestamp':") ++ quoted ts ++ lit "}")
      by regroup.
    apply slice_at; lengths.
Qed.

Lemma store_noticeType (s : bytes) (v : NoticeObject) (saved : option json.error) :
  plain s = true ->
  store_member (lit "'noticeType'") (quoted s) (v, saved)
  = ({| NoticeType := s; Data := Data v; Timestamp := Timestamp v |}, saved).
Proof.
  intros H. unfold store_member.
  change (unquoteBytes (lit "'noticeType'")) with (Some (lit "noticeType")).
  cbv iota beta.
  change (find_field (lit "noticeType")) with (Some FNoticeType). cbv iota beta.
  rewrite (store_string_quoted s (NoticeType v) saved H). reflexivity.
Qed.

Lemma store_timestamp (s : bytes) (v : NoticeObject) (saved : option json.error) :
  plain s = true ->
  store_member (lit "'timestamp'") (quoted s) (v, saved)
  = ({| NoticeType := NoticeType v; Data := Data v; Timestamp := s |}, saved).
Proof.
  intros H. unfold store_member.
  change (unquoteBytes (lit "'timestamp'")) with (Some (lit "timestamp")).
  cbv iota beta.
  change (find_field (lit "timestamp")) with (Some FTimestamp). cbv iota beta.
  rewrite (store_string_quoted s (Timestamp v) saved H). reflexivity.
Qed.

Lemma store_data (d : bytes) (v : NoticeObject) (saved : option json.error) :
  store_member (lit "'data'") d (v, saved)
  = ({| NoticeType := NoticeType v; Data := d; Timestamp := Timestamp v |}, saved).
Proof. reflexivity. Qed.

(** A notice in the usual layout decodes, without error, into its three
    parts: the strings unquoted, the payload as it stands in the text. *)
Theorem Unmarshal_notice_text (nt d ts : bytes) :
  plain nt = true -> plain ts = true -> value_text d ->
  Unmarshal (notice_text nt d ts) zero_NoticeObject
  = ({| NoticeType := nt; Data := d; Timestamp := ts |}, None).
Proof.
  intros Hnt Hts Hd.
  pose proof (run_notice_text nt d ts Hnt Hts Hd) as Hrun.
  unfold Unmarshal, checkValid.
  rewrite <- (app_nil_r (notice_text nt d ts)) at 1.
  rewrite (checkValid_from_run _ [] _ _ _ _ _ _ Hrun).
  change (checkValid_from at_end []) with (@None json.error). cbv iota.
  unfold unmarshal.
  replace (skipSpace (notice_text nt d ts)) with (notice_text nt d ts) by reflexivity.
  change (notice_text nt d ts)
    with ("{"%byte :: lit "'noticeType':" ++ quoted nt ++ lit ",'data':" ++ d
            ++ lit ",'timestamp':" ++ quoted ts ++ lit "}") at 1.
  cbv iota. change ("{" == "{") with true. cbv iota.
  unfold object, members.
  rewrite <- (app_nil_r (notice_text nt d ts)) at 1.
  rewrite (members_from_run _ [] _ _ _ _ _ _ Hrun).
  cbn [members_from]. rewrite app_nil_r.
  destruct (notice_slices nt d ts) as (K1 & V1 & K2 & V2 & K3 & V3).
  unfold notice_members. cbn [fold_left].
  rewrite K1, V1, K2, V2, K3, V3.
  rewrite (store_noticeType nt _ _ Hnt), store_data, (store_timestamp ts _ _ Hts).
  reflexivity.
Qed.

Lemma plain_no_newline (s : bytes) : plain s = true -> ~ In newline s.
Proof.
  induction s as [|c s IH]; intros H; [intros []|].
  cbn [plain forallb] in H. apply andb_prop in H as [Hc Hs].
  intros [-> | Hin]; [discriminate Hc | exact (IH Hs Hin)].
Qed.

Lemma notice_text_no_newline (nt d ts : bytes) :
  plain nt = true -> plain ts = true -> ~ In newline d ->
  ~ In newline (notice_text nt d ts).
Proof.
  intros Hnt Hts Hd. unfold notice_text, quoted.
  rewrite !in_app_iff. cbn [In]. rewrite !in_app_iff. cbn [In].
  pose proof (plain_no_newline nt Hnt). pose proof (plain_no_newline ts Hts).
  intros H'.
  repeat match goal with
         | H : _ \/ _ |- _ => destruct H
         | H : In newline (lit _) |- _ => vm_compute in H
         end; try contradiction; try discriminate.
Qed.

End Runs.

(* ================================================================= *)
(** ** Lines that decode and lines that do not *)

Lemma concat_firstn_incl (k : nat) (chunks : list bytes) (c : byte) :
  In c (concat (firstn k chunks)) -> In c (concat chunks).
Proof.
  revert k. induction chunks as [|p chunks IH]; intros k Hin.
  - rewrite firstn_nil in Hin. exact Hin.
  - destruct k as [|k]; [destruct Hin|].
    cbn [firstn concat] in *. apply in_app_or in Hin. apply in_or_app.
    destruct Hin as [Hin | Hin]; [left; exact Hin | right; apply (IH k); exact Hin].
Qed.

(** C5: a line [L] that decodes without error as a notice with fields
    [timestamp], [noticeType] and [data], given with its newline in one
    call to a rewriter whose buffer is empty, makes the call print exactly
    one line, the timestamp, the type and the payload separated by single
    spaces and ended by a newline; the payload printed is a run of
    bytes of [L] itself.  The notice of the specification's scenario is the
    instance below. *)
Theorem Write_valid_line (r : NoticeConsoleRewriter) (L : bytes) (obj : NoticeObject)
    (world : World) :
  buffer r = [] ->
  ~ In newline L ->
  json.Unmarshal L zero_NoticeObject = (obj, None) ->
  written (snd (fst (Write r (L ++ [newline]) world)))
  = written world
      ++ [Timestamp obj ++ lit " " ++ NoticeType obj ++ lit " " ++ Data obj ++ [newline]]
  /\ buffer (fst (fst (Write r (L ++ [newline]) world))) = []
  /\ exists pre post, L = pre ++ Data obj ++ post.
Proof.
  intros Hbuf Hline Hdec.
  rewrite (Write_line r (L ++ [newline]) L []) by (rewrite ?Hbuf; auto).
  cbn [fst snd buffer with_buffer]. rewrite written_stderr_write.
  unfold rewrite_line. rewrite Hdec. cbn [fst]. repeat split.
  pose proof (Unmarshal_stored L zero_NoticeObject) as (HD & _ & _).
  rewrite Hdec in HD. cbn [fst Data zero_NoticeObject] in HD.
  destruct HD as [-> | (i & j & ->)].
  - exists [], L. reflexivity.
  - apply slice_infix.
Qed.

Lemma Write_valid_line_witness :
  written
    (snd (fst (Write (NewNoticeConsoleRewriter os_Stderr)
                 (lit "{'noticeType':'Info','data':{'msg':'hi'},'timestamp':'2024-01-01T00:00:00Z'}"
                    ++ [newline])
                 fresh_world)))
  = [lit "2024-01-01T00:00:00Z Info {'msg':'hi'}" ++ [newline]].
Proof.
  refine (proj1 (Write_valid_line (NewNoticeConsoleRewriter os_Stderr) notice_hi
                   {| NoticeType := lit "Info"; Data := lit "{'msg':'hi'}";
                      Timestamp := lit "2024-01-01T00:00:00Z" |}
                   fresh_world _ _ _)).
  - reflexivity.
  - intros H. vm_compute in H. intuition discriminate.
  - vm_compute. reflexivity.
Defined.

(** The same for every notice in the usual layout: whatever the type and
    the timestamp (plain strings) and whatever the payload (one JSON value
    on one line), the line printed is made of the three as they stand in
    the notice. *)
Theorem Write_notice_text (r : NoticeConsoleRewriter) (nt d ts : bytes) (world : World) :
  buffer r = [] ->
  plain nt = true -> plain ts = true -> value_text d -> ~ In newline d ->
  written (snd (fst (Write r (notice_text nt d ts ++ [newline]) world)))
  = written world ++ [ts ++ lit " " ++ nt ++ lit " " ++ d ++ [newline]].
Proof.
  intros Hbuf Hnt Hts Hd Hline.
  rewrite (Write_line r _ (notice_text nt d ts) [])
    by (rewrite ?Hbuf; auto using notice_text_no_newline).
  cbn [fst snd]. rewrite written_stderr_write.
  unfold rewrite_line. rewrite (Unmarshal_notice_text nt d ts Hnt Hts Hd). reflexivity.
Qed.

(** C6: a line that decodes, cut into chunks of which the last carries the
    newline and given chunk by chunk to a rewriter whose buffer is empty:
    nothing is printed by the calls before the last, and the last call
    prints exactly one line, the formatted notice. *)
Theorem Write_split_line (r : NoticeConsoleRewriter) (init : list bytes)
    (tail L : bytes) (obj : NoticeObject) (world : World) :
  buffer r = [] ->
  concat init ++ tail = L ->
  ~ In newline L ->
  json.Unmarshal L zero_NoticeObject = (obj, None) ->
  (forall k : nat, written (snd (Writes r (firstn k init) world)) = written world)
  /\ written (snd (fst (Write (fst (Writes r init world)) (tail ++ [newline])
                          (snd (Writes r init world)))))
     = written world ++ [formatted obj].
Proof.
  intros Hbuf HL Hline Hdec. split.
  - intros k. rewrite Writes_no_newline; [reflexivity|].
    rewrite Hbuf. cbn [app]. intros Hin. apply Hline. rewrite <- HL.
    apply in_or_app. left. apply (concat_firstn_incl k). exact Hin.
  - rewrite Writes_no_newline.
    + cbn [fst snd]. rewrite Hbuf. cbn [app].
      rewrite (Write_line _ _ L []).
      * cbn [fst snd]. rewrite written_stderr_write.
        unfold rewrite_line. rewrite Hdec. reflexivity.
      * cbn [buffer with_buffer]. rewrite app_assoc, HL. reflexivity.
      * exact Hline.
    + rewrite Hbuf. cbn [app]. intros Hin. apply Hline. rewrite <- HL.
      apply in_or_app. left. exact Hin.
Qed.

Lemma Write_split_line_witness :
  let r := NewNoticeConsoleRewriter os_Stderr in
  let first := lit "{'noticeType':'Info'," in
  let second := lit "'data':{},'timestamp':'T'}" ++ [newline] in
  written (snd (Writes r [first] fresh_world)) = []
  /\ written (snd (Writes r [first; second] fresh_world)) = [lit "T Info {}" ++ [newline]].
Proof.
  pose proof (Write_split_line (NewNoticeConsoleRewriter os_Stderr)
                [lit "{'noticeType':'Info',"] (lit "'data':{},'timestamp':'T'}")
                (lit "{'noticeType':'Info','data':{},'timestamp':'T'}")
                {| NoticeType := lit "Info"; Data := lit "{}"; Timestamp := lit "T" |}
                fresh_world) as H.
  destruct H as [Hbefore Hlast].
  - reflexivity.
  - reflexivity.
  - intros H. vm_compute in H. intuition discriminate.
  - vm_compute. reflexivity.
  - split; [exact (Hbefore 1%nat) | exact Hlast].
Defined.

(** C8: a line that does not decode, given with its newline to a rewriter
    whose buffer is empty: the call returns a nil error and prints exactly
    one line, made of the fields as the decoder left them, each the empty
    default or read from the line (all three empty, hence two spaces and a
    newline, when the line is not JSON at all); a line that decodes, given
    next, is printed as its formatted notice. *)
Theorem Write_undecodable_line (r : NoticeConsoleRewriter) (L : bytes)
    (obj : NoticeObject) (e : json.error) (world : World) :
  buffer r = [] ->
  ~ In newline L ->
  json.Unmarshal L zero_NoticeObject = (obj, Some e) ->
  let res := Write r (L ++ [newline]) world in
  snd res = (len (L ++ [newline]), None)
  /\ written (snd (fst res)) = written world ++ [formatted obj]
  /\ stored_from L zero_NoticeObject obj
  /\ (json.checkValid L <> None -> formatted obj = lit "  " ++ [newline])
  /\ forall (L2 : bytes) (obj2 : NoticeObject),
       ~ In newline L2 ->
       json.Unmarshal L2 zero_NoticeObject = (obj2, None) ->
       let res2 := Write (fst (fst res)) (L2 ++ [newline]) (snd (fst res)) in
       snd res2 = (len (L2 ++ [newline]), None)
       /\ written (snd (fst res2)) = written world ++ [formatted obj; formatted obj2].
Proof.
  intros Hbuf Hline Hdec. cbv zeta.
  assert (HL : rewrite_line L = formatted obj)
    by (unfold rewrite_line; rewrite Hdec; reflexivity).
  rewrite (Write_line r (L ++ [newline]) L []) by (rewrite ?Hbuf; auto).
  cbn [fst snd]. rewrite written_stderr_write, HL.
  split; [reflexivity|]. split; [reflexivity|]. split; [|split].
  - pose proof (Unmarshal_stored L zero_NoticeObject) as H.
    rewrite Hdec in H. exact H.
  - intros Hinvalid.
    pose proof (Unmarshal_invalid L zero_NoticeObject Hinvalid) as H.
    rewrite Hdec in H. cbn [fst] in H. subst obj. reflexivity.
  - intros L2 obj2 Hline2 Hdec2.
    assert (HL2 : rewrite_line L2 = formatted obj2)
      by (unfold rewrite_line; rewrite Hdec2; reflexivity).
    rewrite (Write_line (with_buffer r []) (L2 ++ [newline]) L2 []) by auto.
    cbn [fst snd]. rewrite !written_stderr_write, HL2.
    rewrite <- app_assoc. split; reflexivity.
Qed.

Lemma Write_undecodable_line_witness :
  let r := NewNoticeConsoleRewriter os_Stderr in
  let res := Write r (lit "not a notice" ++ [newline]) fresh_world in
  let res2 := Write (fst (fst res)) (notice_hi ++ [newline]) (snd (fst res)) in
  snd res = (13, None)
  /\ written (snd (fst res)) = [lit "  " ++ [newline]]
  /\ snd res2 = (77, None)
  /\ written (snd (fst res2)) = [lit "  " ++ [newline]; line_hi].
Proof.
  pose proof (Write_undecodable_line (NewNoticeConsoleRewriter os_Stderr)
                (lit "not a notice") zero_NoticeObject json.SyntaxError fresh_world) as H.
  destruct H as (Hret & Hout & _ & _ & Hnext).
  - reflexivity.
  - intros H. vm_compute in H. intuition discriminate.
  - vm_compute. reflexivity.
  - destruct (Hnext notice_hi
                {| NoticeType := lit "Info"; Data := lit "{'msg':'hi'}";
                   Timestamp := lit "2024-01-01T00:00:00Z" |}) as [Hret2 Hout2].
    + intros H. vm_compute in H. intuition discriminate.
    + vm_compute. reflexivity.
    + exact (conj Hret (conj Hout (conj Hret2 Hout2))).
Defined.

(* ================================================================= *)
(** ** Sequences of calls *)

Lemma Writes_cons (r : NoticeConsoleRewriter) (p : bytes) (chunks : list bytes)
    (world : World) :
  Writes r (p :: chunks) world
  = Writes (fst (fst (Write r p world))) chunks (snd (fst (Write r p world))).
Proof.
  cbn [Writes]. destruct (Write r p world) as [[r1 world1] res]. reflexivity.
Qed.

Lemma concat_lines_cons (l : bytes) (lines : list bytes) (tail : bytes) :
  concat (map (fun l => l ++ [newline]) (l :: lines)) ++ tail
  = l ++ newline :: concat (map (fun l => l ++ [newline]) lines) ++ tail.
Proof. cbn [map concat]. rewrite <- !app_assoc. reflexivity. Qed.

(** X10: over any sequence of calls nothing is lost and nothing changes
    place: what has been printed is, in order, the rewriting of the first
    lines of the stream (old buffer, then the chunks), at most one per
    call, and the buffer is the rest of the stream. *)
Theorem Writes_stream (chunks : list bytes) :
  forall (r : NoticeConsoleRewriter) (world : World),
  exists lines : list bytes,
    written (snd (Writes r chunks world)) = written world ++ map rewrite_line lines
    /\ buffer r ++ concat chunks
       = concat (map (fun l => l ++ [newline]) lines) ++ buffer (fst (Writes r chunks world))
    /\ Forall (fun l => ~ In newline l) lines
    /\ (length lines <= length chunks)%nat.
Proof.
  induction chunks as [|p chunks IH]; intros r world.
  - exists []. cbn [Writes fst snd map concat app length].
    rewrite !app_nil_r. repeat split; [constructor | lia].
  - rewrite Writes_cons. cbn [concat]. rewrite app_assoc.
    destruct (Write_cases r p world) as [[_ ->] | (l & rest & Hsplit & Hl & ->)];
      cbn [fst snd].
    + destruct (IH (with_buffer r (buffer r ++ p)) world) as (lines & Hw & Hb & Hf & Hn).
      exists lines. cbn [buffer with_buffer] in Hb.
      repeat split; try assumption. cbn [length]. lia.
    + destruct (IH (with_buffer r rest) (stderr_write world (rewrite_line l)))
        as (lines & Hw & Hb & Hf & Hn).
      exists (l :: lines). cbn [buffer with_buffer] in Hb.
      rewrite written_stderr_write in Hw. split; [|split; [|split]].
      * rewrite Hw. cbn [map]. rewrite <- app_assoc. reflexivity.
      * rewrite Hsplit, concat_lines_cons, <- Hb, <- app_assoc. reflexivity.
      * constructor; assumption.
      * cbn [length]. lia.
Qed.

(** X11: a producer that hands over one complete line per call, starting
    on an empty buffer, sees each line printed by the call that carries it:
    after the calls every line has been printed, in order, and the buffer
    is empty. *)
Theorem Writes_line_per_call (lines : list bytes) :
  forall (r : NoticeConsoleRewriter) (world : World),
    buffer r = [] ->
    Forall (fun l => ~ In newline l) lines ->
    written (snd (Writes r (map (fun l => l ++ [newline]) lines) world))
    = written world ++ map rewrite_line lines
    /\ buffer (fst (Writes r (map (fun l => l ++ [newline]) lines) world)) = [].
Proof.
  induction lines as [|l lines IH]; intros r world Hbuf Hlines.
  - cbn [map Writes fst snd]. rewrite app_nil_r. split; [reflexivity | exact Hbuf].
  - inversion Hlines as [|? ? Hl Hrest]; subst.
    cbn [map]. rewrite Writes_cons.
    rewrite (Write_line r (l ++ [newline]) l []) by (rewrite ?Hbuf; auto).
    cbn [fst snd].
    destruct (IH (with_buffer r []) (stderr_write world (rewrite_line l)) eq_refl Hrest)
      as [Hw Hb].
    rewrite Hw, Hb, written_stderr_write, <- app_assoc. split; reflexivity.
Qed.

Lemma Writes_line_per_call_witness :
  let r := NewNoticeConsoleRewriter os_Stderr in
  written (snd (Writes r [notice_hi ++ [newline]; notice_bye ++ [newline]] fresh_world))
  = [line_hi; line_bye]
  /\ buffer (fst (Writes r [notice_hi ++ [newline]; notice_bye ++ [newline]] fresh_world))
     = [].
Proof.
  refine (Writes_line_per_call [notice_hi; notice_bye]
            (NewNoticeConsoleRewriter os_Stderr) fresh_world _ _).
  - reflexivity.
  - repeat constructor; intros H; vm_compute in H; intuition discriminate.
Defined.

(** X12: complete lines left in the buffer come out one per later call, in
    order: with [lines] pending in front of [tail], as many calls with the
    empty chunk print them all and leave [tail]. *)
Theorem Writes_flush_pending (lines : list bytes) :
  forall (r : NoticeConsoleRewriter) (tail : bytes) (world : World),
    buffer r = concat (map (fun l => l ++ [newline]) lines) ++ tail ->
    Forall (fun l => ~ In newline l) lines ->
    written (snd (Writes r (repeat [] (length lines)) world))
    = written world ++ map rewrite_line lines
    /\ buffer (fst (Writes r (repeat [] (length lines)) world)) = tail.
Proof.
  induction lines as [|l lines IH]; intros r tail world Hbuf Hlines.
  - cbn [length repeat Writes fst snd map]. rewrite app_nil_r.
    split; [reflexivity | exact Hbuf].
  - inversion Hlines as [|? ? Hl Hrest]; subst.
    cbn [length repeat]. rewrite Writes_cons.
    rewrite (Write_line r [] l (concat (map (fun l => l ++ [newline]) lines) ++ tail))
      by (rewrite ?app_nil_r, ?Hbuf; auto using concat_lines_cons).
    cbn [fst snd].
    destruct (IH (with_buffer r (concat (map (fun l => l ++ [newline]) lines) ++ tail))
                tail (stderr_write world (rewrite_line l)) eq_refl Hrest) as [Hw Hb].
    rewrite Hw, Hb, written_stderr_write, <- app_assoc. split; reflexivity.
Qed.

Lemma Writes_flush_pending_witness :
  let r := fst (fst (Write (NewNoticeConsoleRewriter os_Stderr)
                       (two_notices ++ notice_hi ++ [newline] ++ lit "{'not")
                       fresh_world)) in
  written (snd (Writes r [[]; []] fresh_world)) = [line_bye; line_hi]
  /\ buffer (fst (Writes r [[]; []] fresh_world)) = lit "{'not".
Proof.
  refine (Writes_flush_pending [notice_bye; notice_hi] _ (lit "{'not") fresh_world _ _).
  - vm_compute. reflexivity.
  - repeat constructor; intros H; vm_compute in H; intuition discriminate.
Defined.

(* ================================================================= *)
(** ** Contains *)

Lemma bytes_Equal_eq (a b : bytes) : bytes_Equal a b = true <-> a = b.
Proof.
  revert b. induction a as [|x a IH]; intros [|y b]; cbn [bytes_Equal];
    try (split; [discriminate | intros H; discriminate H]); [tauto|].
  rewrite andb_true_iff, IH. split.
  - intros [Hxy ->]. apply Byte.byte_dec_bl in Hxy. subst. reflexivity.
  - intros H. injection H as -> ->. split; [apply byte_eqb_refl | reflexivity].
Qed.

(** X1: [Contains] answers true exactly when the target is one of the
    strings of the list. *)
Theorem Contains_In (list : list bytes) (target : bytes) :
  Contains list target = true <-> In target list.
Proof.
  induction list as [|listItem list IH]; cbn [Contains In].
  - split; [discriminate | intros []].
  - destruct (bytes_Equal listItem target) eqn:E.
    + apply bytes_Equal_eq in E. tauto.
    + rewrite IH. split; [tauto|]. intros [H | H]; [|exact H].
      apply bytes_Equal_eq in H. congruence.
Qed.

(* ================================================================= *)
(** ** TrimError *)

Lemma firstn_exact (a b : bytes) (n : nat) : length a = n -> firstn n (a ++ b) = a.
Proof.
  intros <-. rewrite firstn_app, Nat.sub_diag, firstn_all. cbn [firstn]. apply app_nil_r.
Qed.

Lemma skipn_exact (a b : bytes) (n : nat) : length a = n -> skipn n (a ++ b) = b.
Proof.
  intros <-. rewrite skipn_app, Nat.sub_diag, skipn_all. reflexivity.
Qed.

Section Trimming.

Variable message : bytes.
Hypothesis long : MAX_LEN < len message.

Lemma trimmed_head_length : length (trim_head message) = 50%nat.
Proof.
  unfold trim_head, slice_to, MAX_LEN, len in *. apply firstn_length_le.
  change (Z.to_nat (100 / 2)) with 50%nat. lia.
Qed.

Lemma trimmed_tail_length : length (trim_tail message) = 50%nat.
Proof.
  unfold trim_tail, slice_from, MAX_LEN, len in *. rewrite length_skipn.
  change (100 / 2) with 50. lia.
Qed.

Lemma trimmed_split :
  message
  = trim_head message ++ firstn (length message - 100) (skipn 50 message)
      ++ trim_tail message.
Proof.
  unfold trim_head, trim_tail, slice_to, slice_from, MAX_LEN, len in *.
  change (100 / 2) with 50. change (Z.to_nat 50) with 50%nat.
  replace (Z.to_nat (Z.of_nat (length message) - 50))
    with ((length message - 100) + 50)%nat by lia.
  rewrite <- skipn_skipn, !firstn_skipn. reflexivity.
Qed.

Lemma TrimError_long :
  TrimError (Some (errors.New message))
  = Some (errors.New (trim_head message ++ lit "..." ++ trim_tail message)).
Proof.
  unfold TrimError. cbn [fmt_Sprintf_s errors.Error].
  destruct (Z.gtb_spec (len message) MAX_LEN) as [_|H]; [reflexivity | lia].
Qed.

Lemma trimmed_length :
  len (trim_head message ++ lit "..." ++ trim_tail message) = 103.
Proof.
  unfold len. rewrite !length_app, trimmed_head_length, trimmed_tail_length.
  reflexivity.
Qed.

Lemma trimmed_again :
  TrimError (Some (errors.New (trim_head message ++ lit "..." ++ trim_tail message)))
  = Some (errors.New (trim_head message ++ lit "..." ++ trim_tail message)).
Proof.
  unfold TrimError. cbn [fmt_Sprintf_s errors.Error]. rewrite trimmed_length.
  change (103 >? MAX_LEN) with true. cbv iota.
  change (103 - MAX_LEN / 2) with 53. change (MAX_LEN / 2) with 50.
  unfold slice_to, slice_from.
  change (Z.to_nat 50) with 50%nat. change (Z.to_nat 53) with 53%nat.
  rewrite (firstn_exact (trim_head message) _ 50 trimmed_head_length).
  rewrite (app_assoc (trim_head message) (lit "...") (trim_tail message)),
    (skipn_exact (trim_head message ++ lit "...") (trim_tail message) 53).
  - rewrite <- app_assoc. reflexivity.
  - rewrite length_app, trimmed_head_length. reflexivity.
Qed.

End Trimming.

(** X2: from a message of more than 100 bytes [TrimError] makes a new error
    that keeps the first 50 bytes and the last 50 and puts three dots in
    the place of what was between them, which is never empty. *)
Theorem TrimError_removes_middle (e : errors.errorString) :
  MAX_LEN < len (errors.Error e) ->
  exists head middle tail : bytes,
    errors.Error e = head ++ middle ++ tail
    /\ length head = 50%nat /\ length tail = 50%nat /\ middle <> []
    /\ TrimError (Some e) = Some (errors.New (head ++ lit "..." ++ tail)).
Proof.
  destruct e as [message]. cbn [errors.Error]. intros Hlong.
  exists (trim_head message), (firstn (length message - 100) (skipn 50 message)),
    (trim_tail message).
  split; [apply trimmed_split; exact Hlong|].
  split; [apply trimmed_head_length; exact Hlong|].
  split; [apply trimmed_tail_length; exact Hlong|].
  split; [|apply TrimError_long; exact Hlong].
  intros Hnil. apply (f_equal (@length byte)) in Hnil.
  rewrite length_firstn, length_skipn in Hnil. cbn [length] in Hnil.
  unfold MAX_LEN, len in Hlong. lia.
Qed.

Lemma TrimError_removes_middle_witness :
  let e := errors.New (repeat "a"%byte 60 ++ repeat "b"%byte 60) in
  MAX_LEN < len (errors.Error e)
  /\ exists head middle tail : bytes,
       errors.Error e = head ++ middle ++ tail
       /\ length head = 50%nat /\ length tail = 50%nat /\ middle <> []
       /\ TrimError (Some e) = Some (errors.New (head ++ lit "..." ++ tail)).
Proof.
  split; [reflexivity|].
  apply (TrimError_removes_middle
           (errors.New (repeat "a"%byte 60 ++ repeat "b"%byte 60))).
  reflexivity.
Defined.

(** X3: trimming twice is trimming once, for the nil error, for a short
    message and for a long one: the 103 bytes a trimmed message has are
    cut at the same two places again. *)
Theorem TrimError_idempotent (err : error_value) :
  TrimError (TrimError err) = TrimError err.
Proof.
  destruct err as [[message]|]; [|reflexivity].
  destruct (Z.lt_ge_cases MAX_LEN (len message)) as [Hlong | Hshort].
  - rewrite (TrimError_long message Hlong). apply trimmed_again. exact Hlong.
  - assert (H : TrimError (Some (errors.New message)) = Some (errors.New message)).
    { unfold TrimError. cbn [fmt_Sprintf_s errors.Error].
      destruct (Z.gtb_spec (len message) MAX_LEN); [lia | reflexivity]. }
    rewrite H. exact H.
Qed.

(** X4: the message [TrimError] returns has at most 103 bytes, and it is
    longer than the message given exactly when that one has 101 or 102
    bytes. *)
Theorem TrimError_length (e : errors.errorString) :
  exists e' : errors.errorString,
    TrimError (Some e) = Some e'
    /\ len (errors.Error e') <= 103
    /\ (len (errors.Error e) < len (errors.Error e')
        <-> 101 <= len (errors.Error e) <= 102).
Proof.
  destruct e as [message]. cbn [errors.Error].
  destruct (Z.lt_ge_cases MAX_LEN (len message)) as [Hlong | Hshort].
  - eexists. split; [apply TrimError_long; exact Hlong|]. cbn [errors.Error].
    rewrite (trimmed_length message Hlong). unfold MAX_LEN in Hlong. lia.
  - exists (errors.New message). cbn [errors.Error]. split.
    + unfold TrimError. cbn [fmt_Sprintf_s errors.Error].
      destruct (Z.gtb_spec (len message) MAX_LEN); [lia | reflexivity].
    + unfold MAX_LEN in Hshort. lia.
Qed.

(* ================================================================= *)
(** ** ContextError and IsNetworkBindError *)

Lemma bytes_HasPrefix_spec (sep s : bytes) :
  bytes_HasPrefix s sep = true <-> exists post, s = sep ++ post.
Proof.
  revert s. induction sep as [|a sep IH]; intros s; cbn [bytes_HasPrefix].
  - split; [intros _; exists s; reflexivity | reflexivity].
  - destruct s as [|b s].
    + split; [discriminate | intros [post H]; discriminate H].
    + rewrite andb_true_iff, IH. split.
      * intros [Hab [post ->]]. apply Byte.byte_dec_bl in Hab. subst.
        exists post. reflexivity.
      * intros [post H]. injection H as -> ->.
        split; [apply byte_eqb_refl | exists post; reflexivity].
Qed.

(** [bytes.Index] finds [sep] exactly when it occurs. *)
Lemma bytes_Index_found (sep s : bytes) :
  0 <= bytes_Index s sep <-> exists pre post, s = pre ++ sep ++ post.
Proof.
  split.
  - induction s as [|c s IH]; cbn [bytes_Index].
    + destruct (bytes_HasPrefix [] sep) eqn:E; [|lia].
      intros _. apply bytes_HasPrefix_spec in E as [post E]. exists [], post. exact E.
    + destruct (bytes_HasPrefix (c :: s) sep) eqn:E.
      * intros _. apply bytes_HasPrefix_spec in E as [post E]. exists [], post. exact E.
      * destruct (Z.eqb_spec (bytes_Index s sep) (-1)) as [|Hne]; [lia|].
        intros _. pose proof (bytes_Index_lower_bound s sep).
        destruct IH as (pre & post & ->); [lia|].
        exists (c :: pre), post. reflexivity.
  - intros (pre & post & ->). induction pre as [|c pre IH].
    + cbn [app]. destruct (sep ++ post) as [|c s] eqn:E; cbn [bytes_Index].
      * replace (bytes_HasPrefix [] sep) with true; [lia|].
        symmetry. apply bytes_HasPrefix_spec. exists post. symmetry. exact E.
      * replace (bytes_HasPrefix (c :: s) sep) with true; [lia|].
        symmetry. apply bytes_HasPrefix_spec. exists post. symmetry. exact E.
    + cbn [app bytes_Index].
      destruct (bytes_HasPrefix (c :: pre ++ sep ++ post) sep); [lia|].
      destruct (Z.eqb_spec (bytes_Index (pre ++ sep ++ post) sep) (-1)); lia.
Qed.

(** The last instance of one byte. *)
Lemma strings_LastIndex_byte (c : byte) (s : bytes) :
  (strings_LastIndex s [c] = -1 /\ ~ In c s)
  \/ exists pre name,
       s = pre ++ c :: name /\ ~ In c name /\ strings_LastIndex s [c] = len pre.
Proof.
  induction s as [|x s [[IH Hnot] | (pre & name & -> & Hname & IH)]].
  - left. split; [reflexivity | intros []].
  - cbn [strings_LastIndex bytes_HasPrefix]. rewrite IH. cbn [Z.eqb Pos.eqb].
    destruct (Byte.byte_eq_dec c x) as [-> | Hcx].
    + right. exists [], s. rewrite byte_eqb_refl. repeat split. exact Hnot.
    + left. rewrite byte_eqb_neq by exact Hcx. split; [reflexivity|].
      intros [H | H]; [apply Hcx; symmetry; exact H | exact (Hnot H)].
  - right. exists (x :: pre), name. cbn [strings_LastIndex app]. rewrite IH.
    destruct (Z.eqb_spec (len pre) (-1)) as [E|_]; [unfold len in E; lia|].
    repeat split; [exact Hname|]. unfold len. cbn [length]. lia.
Qed.

Lemma skipn_past (pre name : bytes) (c : byte) :
  skipn (Z.to_nat (len pre + 1)) (pre ++ c :: name) = name.
Proof.
  unfold len. replace (Z.to_nat (Z.of_nat (length pre) + 1)) with (length pre + 1)%nat by lia.
  rewrite skipn_app, skipn_all2 by lia.
  replace (length pre + 1 - length pre)%nat with 1%nat by lia. reflexivity.
Qed.

(** The message of the error comes last in the message [ContextError]
    makes. *)
Lemma ContextError_suffix (caller : Frame) (e : errors.errorString) :
  exists context : bytes,
    ContextError caller (Some e) = Some (errors.New (context ++ errors.Error e)).
Proof.
  unfold ContextError, fmt_Errorf. cbn [fmt_Sprintf_s].
  eexists. rewrite !app_assoc. reflexivity.
Qed.

(** X5: [ContextError] keeps nil as nil; for any other error it returns a
    new one whose message is the caller's function name without its
    directory part (nothing up to the last slash is kept, so no slash is
    left), a [#], the line in decimal, a colon and a space, and then the
    message of the error as it was. *)
Theorem ContextError_message (caller : Frame) (err : error_value) :
  match err with
  | None => ContextError caller err = None
  | Some e =>
      exists dir name : bytes,
        function caller = dir ++ name
        /\ ~ In "/"%byte name
        /\ (dir = [] \/ exists d, dir = d ++ lit "/")
        /\ ContextError caller err
           = Some (errors.New (name ++ lit "#" ++ fmt_d (line caller) ++ lit ": "
                                 ++ errors.Error e))
  end.
Proof.
  destruct err as [e|]; [|reflexivity].
  unfold ContextError, fmt_Errorf. cbn [fmt_Sprintf_s].
  change (lit "/") with ["/"%byte].
  destruct (strings_LastIndex_byte "/" (function caller))
    as [[-> Hnot] | (pre & name & Hsplit & Hname & ->)].
  - exists [], (function caller). cbn [Z.eqb negb app].
    repeat split; [exact Hnot | left; reflexivity].
  - exists (pre ++ ["/"%byte]), name.
    destruct (Z.eqb_spec (len pre) (-1)) as [E|_]; [unfold len in E; lia|].
    cbn [negb]. rewrite Hsplit.
    split; [rewrite <- app_assoc; reflexivity|].
    split; [exact Hname|]. split; [right; exists pre; reflexivity|].
    unfold slice_from. rewrite skipn_past. reflexivity.
Qed.

(** The answer on an error that is not nil. *)
Lemma IsNetworkBindError_found (e : errors.errorString) :
  IsNetworkBindError (Some e) = Returns true
  <-> exists pre post, errors.Error e = pre ++ bind_error_text ++ post.
Proof.
  unfold IsNetworkBindError, strings_Contains.
  rewrite <- bytes_Index_found. split.
  - intros H. injection H as H. apply Z.leb_le. exact H.
  - intros H. apply Z.leb_le in H. rewrite H. reflexivity.
Qed.

(** X6: [IsNetworkBindError] panics on the nil error; on any other it
    answers true exactly when the text "bind: address already in use"
    stands somewhere in the message. *)
Theorem IsNetworkBindError_spec :
  IsNetworkBindError None = Panics
  /\ forall e : errors.errorString,
       IsNetworkBindError (Some e) = Returns true
       <-> exists pre post, errors.Error e = pre ++ bind_error_text ++ post.
Proof.
  split; [reflexivity|]. intros e. unfold IsNetworkBindError, strings_Contains.
  rewrite <- bytes_Index_found. split.
  - intros H. injection H as H. apply Z.leb_le. exact H.
  - intros H. apply Z.leb_le in H. rewrite H. reflexivity.
Qed.

(** X7: wrapping an error with [ContextError] never hides a bind error:
    what [IsNetworkBindError] recognises before the wrapping it recognises
    after it, whoever the caller is. *)
Theorem IsNetworkBindError_ContextError (caller : Frame) (e : errors.errorString) :
  IsNetworkBindError (Some e) = Returns true ->
  IsNetworkBindError (ContextError caller (Some e)) = Returns true.
Proof.
  intros H. apply IsNetworkBindError_found in H as (pre & post & Hmsg).
  destruct (ContextError_suffix caller e) as (context & ->).
  apply IsNetworkBindError_found. cbn [errors.Error]. rewrite Hmsg.
  exists (context ++ pre), post. rewrite <- !app_assoc. reflexivity.
Qed.

Lemma IsNetworkBindError_ContextError_witness :
  let e := errors.New (lit "listen tcp 127.0.0.1:8080: bind: address already in use") in
  let caller :=
    {| function := lit "github.com/Psiphon-Labs/psiphon-tunnel-core/psiphon.NewListener";
       line := 42 |} in
  IsNetworkBindError (Some e) = Returns true
  /\ ContextError caller (Some e)
     = Some (errors.New
               (lit "psiphon.NewListener#42: listen tcp 127.0.0.1:8080: bind: address already in use"))
  /\ IsNetworkBindError (ContextError caller (Some e)) = Returns true.
Proof.
  split; [reflexivity|]. split; [reflexivity|].
  apply (IsNetworkBindError_ContextError
           {| function := lit "github.com/Psiphon-Labs/psiphon-tunnel-core/psiphon.NewListener";
              line := 42 |}
           (errors.New (lit "listen tcp 127.0.0.1:8080: bind: address already in use"))).
  reflexivity.
Defined.

(* ================================================================= *)
(** ** The random helpers *)

Lemma wrap_small (bits z : Z) :
  bits = 32 \/ bits = 64 -> in_int bits z -> wrap bits z = z.
Proof.
  unfold wrap, in_int. intros [-> | ->] H; cbn in H |- *;
    rewrite Z.mod_small; lia.
Qed.

Lemma in_int_64 (bits z : Z) : bits = 32 \/ bits = 64 -> in_int bits z -> in_int 64 z.
Proof. unfold in_int. intros [-> | ->] H; cbn in H |- *; lia. Qed.


(** X9: on a platform whose [int] has 32 or 64 bits, and with a [rand.Int]
    that keeps its contract (a number it returns lies in [0, max)),
    [MakeSecureRandomInt] panics exactly when [max <= 0] and otherwise
    returns either a number in [0, max) with a nil error or 0 with an
    error: the conversions to [int64] and back to [int] lose nothing. *)
Theorem MakeSecureRandomInt_range (RandState : Type)
    (rand_Int : RandState -> Z -> (Z + errors.errorString) * RandState)
    (package : bytes) (int_bits max : Z) (st : RandState) :
  int_bits = 32 \/ int_bits = 64 ->
  in_int int_bits max ->
  (forall st m, 0 < m ->
     match rand_Int st m with (inl v, _) => 0 <= v < m | (inr _, _) => True end) ->
  match MakeSecureRandomInt RandState rand_Int package int_bits max st with
  | Panics => max <= 0
  | Returns ((n, err), _) =>
      0 < max /\ match err with None => 0 <= n < max | Some _ => n = 0 end
  end.
Proof.
  intros Hbits Hmax Hrand. unfold MakeSecureRandomInt, MakeSecureRandomInt64.
  rewrite (wrap_small 64 max (or_intror eq_refl) (in_int_64 _ _ Hbits Hmax)).
  destruct (Z.leb_spec max 0) as [Hle | Hlt]; [exact Hle|].
  specialize (Hrand st max Hlt).
  destruct (rand_Int st max) as [[v | e] st']; (split; [exact Hlt|]).
  - assert (Hv : in_int int_bits v) by (unfold in_int in *; lia).
    rewrite (wrap_small 64 v (or_intror eq_refl) (in_int_64 _ _ Hbits Hv)).
    rewrite (wrap_small int_bits v Hbits Hv). exact Hrand.
  - unfold ContextError. apply (wrap_small int_bits 0 Hbits).
    unfold in_int. destruct Hbits as [-> | ->]; cbn; lia.
Qed.

Lemma MakeSecureRandomInt_range_witness :
  let rand_Int := fun (st m : Z) => (@inl Z errors.errorString (st mod m), st + 1) in
  let package := lit "github.com/Psiphon-Labs/psiphon-tunnel-core/psiphon" in
  MakeSecureRandomInt Z rand_Int package 32 10 12345 = Returns ((5, None), 12346)
  /\ match MakeSecureRandomInt Z rand_Int package 32 10 12345 with
     | Panics => 10 <= 0
     | Returns ((n, err), _) =>
         0 < 10 /\ match err with None => 0 <= n < 10 | Some _ => n = 0 end
     end.
Proof.
  split; [reflexivity|].
  apply (MakeSecureRandomInt_range Z
           (fun (st m : Z) => (@inl Z errors.errorString (st mod m), st + 1))
           (lit "github.com/Psiphon-Labs/psiphon-tunnel-core/psiphon")
           32 10 12345).
  - left. reflexivity.
  - unfold in_int. cbn. lia.
  - intros st m Hm. apply Z.mod_pos_bound. exact Hm.
Defined.

(* ================================================================= *)
(** ** Trimming a bind error *)

(** X13: a message that ends with the text of a bind error, as the messages
    of the operating system's errors do, is still recognised by
    [IsNetworkBindError] after [TrimError], however long it was: the text
    fits in the 50 bytes kept at the end. *)
Theorem IsNetworkBindError_TrimError (e : errors.errorString) (pre : bytes) :
  errors.Error e = pre ++ bind_error_text ->
  IsNetworkBindError (TrimError (Some e)) = Returns true.
Proof.
  destruct e as [message]. cbn [errors.Error]. intros Hmsg.
  destruct (Z.lt_ge_cases MAX_LEN (len message)) as [Hlong | Hshort].
  - rewrite (TrimError_long message Hlong). apply IsNetworkBindError_found.
    cbn [errors.Error].
    exists (trim_head message ++ lit "..." ++ skipn (length message - 50) pre), [].
    rewrite app_nil_r, <- !app_assoc. do 2 f_equal.
    unfold trim_tail, slice_from, len, MAX_LEN in *. change (100 / 2) with 50.
    replace (Z.to_nat (Z.of_nat (length message) - 50)) with (length message - 50)%nat
      by lia.
    rewrite Hmsg at 2. rewrite skipn_app.
    replace (length message - 50 - length pre)%nat with 0%nat; [reflexivity|].
    rewrite Hmsg, length_app. change (length bind_error_text) with 28%nat. lia.
  - assert (H : TrimError (Some (errors.New message)) = Some (errors.New message)).
    { unfold TrimError. cbn [fmt_Sprintf_s errors.Error].
      destruct (Z.gtb_spec (len message) MAX_LEN); [lia | reflexivity]. }
    rewrite H. apply IsNetworkBindError_found. exists pre, [].
    rewrite app_nil_r. exact Hmsg.
Qed.

Lemma IsNetworkBindError_TrimError_witness :
  let e := errors.New (repeat "x"%byte 90 ++ lit ": " ++ bind_error_text) in
  errors.Error e = (repeat "x"%byte 90 ++ lit ": ") ++ bind_error_text
  /\ TrimError (Some e)
     = Some (errors.New (repeat "x"%byte 50 ++ lit "..." ++ repeat "x"%byte 20
                           ++ lit ": " ++ bind_error_text))
  /\ IsNetworkBindError (TrimError (Some e)) = Returns true.
Proof.
  split; [reflexivity|]. split; [reflexivity|].
  apply (IsNetworkBindError_TrimError
           (errors.New (repeat "x"%byte 90 ++ lit ": " ++ bind_error_text))
           (repeat "x"%byte 90 ++ lit ": ")).
  reflexivity.
Defined.
